(** * API health monitor (main.ts): a shallow embedding and its properties

    The program probes a fixed list of HTTP endpoints, keeps the records
    of the most recent batch in a module-level variable and serves them
    over a small HTTP interface.  This file embeds

    - the timeout-bounded fetch [fetchWithTimeout] and the prober
      [checkHealth] as computations in a state-and-exception monad
      [Task] (one asynchronous task: its clock, its armed timers, and a
      value or a thrown error);
    - [Promise.all] as the slot-filling procedure it is, run over an
      arbitrary settlement order;
    - [handler] and [backgroundHealthCheck] as programs [Prog] that read
      and write [lastCheckResults] and suspend at each [await];
    - the event loop as a step function over the module state and the
      parked programs, one event per turn, with the reachable states as
      its closure;
    - the script of the dashboard page as a step function over its
      variables, its timers and its requests under way;
    - the numbers read from a string (a path index, an interval typed
      into the page) as doubles: integers rounded to 53 bits, the
      infinities and NaN; a timer delay as the 32-bit integer it is
      converted to, and a date as a time value within 8.64e15 ms of the
      epoch.

    Console output is not part of the modelled state: [console_log] and
    [console_error] are kept where the source has them and do nothing. *)

From Stdlib Require Import ZArith Lia Ascii.
From stdpp Require Import base option list strings gmap pretty.

Local Open Scope string_scope.
Local Open Scope Z_scope.

Set Warnings "-register-all".

(** ** JavaScript values *)

(** The values that end up in records: [undefined] and the JSON-shaped
    ones.  An object is its list of own properties in insertion order,
    the order [JSON.stringify] prints them in; a property that is not in
    the list is absent.  Numbers are the integral ones, which is what
    status codes are; a parsed body is carried along and never looked
    into. *)
Inductive Json : Type :=
| JUndefined
| JNull
| JBool (b : bool)
| JNumber (n : Z)
| JString (s : string)
| JArray (items : list Json)
| JObject (props : list (string * Json)).

(** [o[k]] on an object: the first property named [k], if any. *)
Fixpoint assoc (k : string) (props : list (string * Json)) : option Json :=
  match props with
  | [] => None
  | (k', v) :: rest => if String.eqb k k' then Some v else assoc k rest
  end.

Definition field (k : string) (v : Json) : option Json :=
  match v with
  | JObject props => assoc k props
  | _ => None
  end.

(** What [throw] carries here: an [Error] object, of which the program
    reads [message] only. *)
Record JsError : Type := mkError { message : string }.

(** Outcome of a settled promise, or of a block that may throw. *)
Inductive Result (A : Type) : Type :=
| Ok (a : A)
| Throw (e : JsError).
Arguments Ok {A} a.
Arguments Throw {A} e.

(** The numbers the program computes with are whole: an integer that a
    double holds, an infinity, or NaN. *)
Inductive Number : Type :=
| Finite (n : Z)
| Infinity (negative : bool)
| NaN.

(** The double nearest to an integer: itself up to 2^53 in magnitude;
    beyond, the 53 leading bits rounded to nearest, ties to even, and an
    infinity from 2^1024 on. *)
Definition fl (z : Z) : Number :=
  let a := Z.abs z in
  if a <=? 2 ^ 53 then Finite z
  else
    let e := Z.log2 a - 52 in
    let q := a / 2 ^ e in
    let r := a mod 2 ^ e in
    let half := 2 ^ (e - 1) in
    let q' := if (half <? r) || ((r =? half) && Z.odd q) then q + 1 else q in
    let m := q' * 2 ^ e in
    if m <? 2 ^ 1024 then Finite (Z.sgn z * m) else Infinity (z <? 0).

(** [a * b] and [a + b] on such numbers: the exact result, rounded. *)
Definition Number_mul (a b : Number) : Number :=
  match a, b with
  | Finite x, Finite y => fl (x * y)
  | NaN, _ | _, NaN => NaN
  | Infinity s, Finite y | Finite y, Infinity s =>
      if y =? 0 then NaN else Infinity (xorb s (y <? 0))
  | Infinity s, Infinity s' => Infinity (xorb s s')
  end.

Definition Number_add (a b : Number) : Number :=
  match a, b with
  | Finite x, Finite y => fl (x + y)
  | NaN, _ | _, NaN => NaN
  | Infinity s, Finite _ | Finite _, Infinity s => Infinity s
  | Infinity s, Infinity s' => if Bool.eqb s s' then Infinity s else NaN
  end.

(** [a < b] and [a >= b]; false whenever NaN is compared. *)
Definition Number_ltb (a b : Number) : bool :=
  match a, b with
  | Finite x, Finite y => x <? y
  | Finite _, Infinity negative => negb negative
  | Infinity negative, Finite _ => negative
  | Infinity s, Infinity s' => s && negb s'
  | NaN, _ | _, NaN => false
  end.

Definition Number_geb (a b : Number) : bool :=
  match a, b with
  | NaN, _ | _, NaN => false
  | _, _ => negb (Number_ltb a b)
  end.

(** [array[index]]: undefined unless the index is a position of the
    array. *)
Definition at_index {A} (l : list A) (index : Number) : option A :=
  match index with
  | Finite n => if 0 <=? n then l !! Z.to_nat n else None
  | _ => None
  end.

(** The delay a timer runs with: the number given, converted to a 32-bit
    integer as the Web IDL type long is (modulo 2^32, into
    [-2^31, 2^31)), and 0 when that is negative. *)
Definition long (z : Z) : Z := (z + 2 ^ 31) mod 2 ^ 32 - 2 ^ 31.

Definition timer_delay (delay : Z) : Z := Z.max 0 (long delay).

(** The same for a delay given as a number: NaN and the infinities
    convert to 0. *)
Definition timer_delay_of (delay : Number) : Z :=
  match delay with
  | Finite z => timer_delay z
  | Infinity _ | NaN => 0
  end.

(** The time value of [new Date(v)]: [v] itself when it lies within
    8.64e15 ms of the epoch; otherwise the date is an Invalid Date, whose
    time value is NaN ([None]). *)
Definition new_Date (v : Number) : option Z :=
  match v with
  | Finite z => if Z.abs z <=? 8640000000000000 then Some z else None
  | Infinity _ | NaN => None
  end.

(** ** The runtime *)

(** A body read ([response.json()] or [response.text()]) that settles:
    how long it takes, and the value or the thrown error it yields. *)
Record BodyRead (A : Type) : Type := mkBodyRead { took : Z; yields : Result A }.
Arguments mkBodyRead {A} took yields.
Arguments took {A} b.
Arguments yields {A} b.

(** A [Response] as [fetch] resolves with: status line and headers are
    there (header names in lower case, as [Headers] keeps them), the body
    is still to be read. *)
Record Response : Type := mkResponse {
  status : Z;
  headers : list (string * string);
  json : BodyRead Json;
  text : BodyRead string
}.

(** What the network does with a GET that nobody aborts: after so many
    milliseconds it answers, or the transport fails.  A server that would
    never answer is, under any deadline, one that answers after it. *)
Inductive NetOutcome : Type :=
| Responds (after : Z) (r : Response)
| Fails (after : Z) (e : JsError).

(** Everything the program takes from its environment. *)
Record Runtime : Type := mkRuntime {
  net : string -> Z -> NetOutcome;   (* url, time the request is sent *)
  abort_reason : JsError;            (* what fetch rejects with once its signal aborts *)
  toISOString : Z -> string          (* Date.prototype.toISOString, on epoch milliseconds *)
}.

(** ** Configuration (main.ts, lines 5-20) *)

Record Endpoint : Type := mkEndpoint { name : string; url : string }.

Definition ENDPOINTS : list Endpoint :=
  [ mkEndpoint "Gemini Balance" "https://luckiness-me-gemini-balance.hf.space/health";
    mkEndpoint "Demo API" "https://luckiness-test-df-demo.hf.space/health" ].

Definition TIMEOUT_MS : Z := 5000.

Definition DEFAULT_REFRESH_INTERVAL : Z := 5.

(** ** One asynchronous task *)

(** The state a task sees: the clock in epoch milliseconds and the timers
    it has armed and not cleared, each with the time it fires at. *)
Record TaskState : Type := mkTaskState {
  now : Z;
  next_timer : nat;
  timers : gmap nat Z
}.

Definition Task (A : Type) : Type := TaskState -> TaskState * Result A.

Definition ret {A} (a : A) : Task A := fun s => (s, Ok a).

Definition throw {A} (e : JsError) : Task A := fun s => (s, Throw e).

Definition bind {A B} (k : A -> Task B) (m : Task A) : Task B :=
  fun s =>
    match m s with
    | (s', Ok a) => k a s'
    | (s', Throw e) => (s', Throw e)
    end.

#[export] Instance Task_ret : MRet Task := @ret.
#[export] Instance Task_bind : MBind Task := @bind.

(** [try { body } catch (error) { handler }] *)
Definition try_catch {A} (body : Task A) (handler : JsError -> Task A) : Task A :=
  fun s =>
    match body s with
    | (s', Ok a) => (s', Ok a)
    | (s', Throw e) => handler e s'
    end.

Definition console_log (msg : string) : Task unit := ret tt.
Definition console_error (msg : string) (e : JsError) : Task unit := ret tt.

(** [Date.now()] *)
Definition Date_now : Task Z := fun s => (s, Ok (now s)).

(** [new Date().toISOString()] *)
Definition new_Date_toISOString (rt : Runtime) : Task string :=
  fun s => (s, Ok (toISOString rt (now s))).

(** [setTimeout(() => controller.abort(), timeout)]: arms a timer that
    aborts the controller after the delay [setTimeout] makes of
    [timeout], and returns its id.  The controller is aborted by this
    timer and by nothing else, so its signal is named by the timer's id. *)
Definition setTimeout_abort (timeout : Z) : Task nat :=
  fun s =>
    let id := next_timer s in
    (mkTaskState (now s) (S id) (<[id := now s + timer_delay timeout]> (timers s)), Ok id).

(** [clearTimeout(id)] *)
Definition clearTimeout (id : nat) : Task unit :=
  fun s => (mkTaskState (now s) (next_timer s) (delete id (timers s)), Ok tt).

(** [await part] where the awaited operation settles [d] ms from now. *)
Definition elapse (d : Z) (s : TaskState) : TaskState :=
  mkTaskState (now s + d) (next_timer s) (timers s).

(** [await fetch(url, { signal })], the signal being the one timer
    [signal] aborts.  Whatever the network would do strictly before the
    timer fires happens; otherwise the timer fires first, the request is
    aborted and fetch rejects with the runtime's abort reason.  With no
    such timer armed nothing ever aborts the request. *)
Definition fetch (rt : Runtime) (url : string) (signal : nat) : Task Response :=
  fun s =>
    let aborted_at (deadline : Z) : TaskState * Result Response :=
      (mkTaskState deadline (next_timer s) (timers s), Throw (abort_reason rt)) in
    match net rt url (now s), timers s !! signal with
    | Responds d r, Some deadline =>
        if now s + d <? deadline then (elapse d s, Ok r) else aborted_at deadline
    | Fails d e, Some deadline =>
        if now s + d <? deadline then (elapse d s, Throw e) else aborted_at deadline
    | Responds d r, None => (elapse d s, Ok r)
    | Fails d e, None => (elapse d s, Throw e)
    end.

(** main.ts, lines 25-40.  The only caller passes the url alone:
    [options] is empty and [timeout] is [TIMEOUT_MS]. *)
Definition fetchWithTimeout (rt : Runtime) (url : string) (timeout : Z) : Task Response :=
  id ← setTimeout_abort timeout;
  try_catch
    (response ← fetch rt url id;
     clearTimeout id;;
     ret response)
    (fun error =>
     clearTimeout id;;
     throw error).

(** [await response.json()] and [await response.text()] *)
Definition read_body {A} (b : BodyRead A) : Task A :=
  fun s => (elapse (took b) s, yields b).

(** [headers.get(name)] *)
Fixpoint headers_get (name : string) (hs : list (string * string)) : option string :=
  match hs with
  | [] => None
  | (k, v) :: rest => if String.eqb k name then Some v else headers_get name rest
  end.

(** [s.includes(sub)] *)
Definition includes (s sub : string) : bool :=
  match String.index 0 sub s with
  | Some _ => true
  | None => false
  end.

(** [x || <empty string>] on a string or null; the empty string is
    falsy and yields the empty string all the same. *)
Definition or_empty (o : option string) : string :=
  match o with
  | Some s => s
  | None => EmptyString
  end.

(** main.ts, lines 45-81 *)
Definition checkHealth (rt : Runtime) (endpoint : Endpoint) : Task Json :=
  try_catch
    (console_log ("正在检查 " +:+ name endpoint +:+ " 健康状态...");;
     start ← Date_now;
     response ← fetchWithTimeout rt (url endpoint) TIMEOUT_MS;
     finish ← Date_now;
     let latency := finish - start in
     let contentType := or_empty (headers_get "content-type" (headers response)) in
     responseData ←
       (if includes contentType "application/json"
        then read_body (json response)
        else v ← read_body (text response); ret (JString v));
     timestamp ← new_Date_toISOString rt;
     ret (JObject
            [ ("name", JString (name endpoint));
              ("url", JString (url endpoint));
              ("status", JNumber (status response));
              ("healthy", JBool ((200 <=? status response) && (status response <? 300)));
              ("latency", JString (pretty latency +:+ "ms"));
              ("response", responseData);
              ("timestamp", JString timestamp) ]))
    (fun error =>
     console_error ("检查 " +:+ name endpoint +:+ " 失败:") error;;
     timestamp ← new_Date_toISOString rt;
     ret (JObject
            [ ("name", JString (name endpoint));
              ("url", JString (url endpoint));
              ("status", JNumber 0);
              ("healthy", JBool false);
              ("error", JString (message error));
              ("timestamp", JString timestamp) ])).


(** ** Promise.all *)

(** A task launched at time [t] starts with that clock and no timers. *)
Definition launch (t : Z) : TaskState := mkTaskState t 0 ∅.

(** What the promise of a task launched at [t] settles with, and when. *)
Definition outcome {A} (t : Z) (p : Task A) : Result A := snd (p (launch t)).
Definition settled_at {A} (t : Z) (p : Task A) : Z := now (fst (p (launch t))).

(** The reactions [Promise.all] installs on its input promises, run in
    the order [order] in which the promises settle.  A fulfilment stores
    the value in the slot of its own index and counts down; the last one
    fulfils the aggregate with the slots.  A rejection rejects the
    aggregate at once.  [None]: the aggregate is still pending. *)
Fixpoint Promise_all_go {A} (outcomes : list (Result A)) (order : list nat)
    (values : list A) (remaining : nat) : option (Result (list A)) :=
  match order with
  | [] => None
  | i :: rest =>
      match outcomes !! i with
      | Some (Ok v) =>
          let values' := <[i := v]> values in
          let remaining' := (remaining - 1)%nat in
          if decide (remaining' = 0%nat) then Some (Ok values')
          else Promise_all_go outcomes rest values' remaining'
      | Some (Throw e) => Some (Throw e)
      | None => Promise_all_go outcomes rest values remaining
      end
  end.

(** [Promise.all(promises)]: one slot per input promise, holding
    [undefined] until that promise fulfils; an empty input fulfils with
    the empty array without waiting. *)
Definition Promise_all {A} (undefined : A) (outcomes : list (Result A))
    (order : list nat) : option (Result (list A)) :=
  match outcomes with
  | [] => Some (Ok [])
  | _ => Promise_all_go outcomes order
           (replicate (length outcomes) undefined) (length outcomes)
  end.

(** ** Programs over the module state *)

(** Code that runs on the event loop between suspensions: it reads and
    assigns [lastCheckResults] and suspends at [await]. *)
Inductive Prog (A : Type) : Type :=
| Done (r : Result A)
| ReadCache (k : list Json -> Prog A)
| WriteCache (v : list Json) (k : Prog A)
| AwaitAll (ps : list (Task Json)) (k : Result (list Json) -> Prog A)
| AwaitOne (p : Task Json) (k : Result Json -> Prog A).
Arguments Done {A} r.
Arguments ReadCache {A} k.
Arguments WriteCache {A} v k.
Arguments AwaitAll {A} ps k.
Arguments AwaitOne {A} p k.

Fixpoint Prog_bind {A B} (k : A -> Prog B) (p : Prog A) : Prog B :=
  match p with
  | Done (Ok a) => k a
  | Done (Throw e) => Done (Throw e)
  | ReadCache f => ReadCache (fun c => Prog_bind k (f c))
  | WriteCache v p' => WriteCache v (Prog_bind k p')
  | AwaitAll ps f => AwaitAll ps (fun r => Prog_bind k (f r))
  | AwaitOne p' f => AwaitOne p' (fun r => Prog_bind k (f r))
  end.

#[export] Instance Prog_ret : MRet Prog := fun A a => Done (Ok a).
#[export] Instance Prog_mbind : MBind Prog := @Prog_bind.

(** An awaited promise that rejects throws at the [await]. *)
Definition resume {A} (r : Result A) : Prog A := Done r.

(** [await Promise.all(ps)] *)
Definition await_all (ps : list (Task Json)) : Prog (list Json) := AwaitAll ps resume.

(** [await p] *)
Definition await (p : Task Json) : Prog Json := AwaitOne p resume.

(** [lastCheckResults] as an expression, and [lastCheckResults = v] *)
Definition get_lastCheckResults : Prog (list Json) := ReadCache (fun c => Done (Ok c)).
Definition set_lastCheckResults (v : list Json) : Prog unit := WriteCache v (Done (Ok tt)).

Definition log (msg : string) : Prog unit := Done (Ok tt).

(** main.ts, lines 88-92 *)
Definition backgroundHealthCheck (rt : Runtime) : Prog unit :=
  log "执行后台健康检查...";;
  results ← await_all (map (checkHealth rt) ENDPOINTS);
  set_lastCheckResults results;;
  shown ← get_lastCheckResults;
  log "健康检查完成，结果: ...".

(** ** The request handler *)

Record Request : Type := mkRequest {
  method : string;
  pathname : string          (* new URL(req.url).pathname *)
}.

Inductive Body : Type :=
| NoBody                                                (* null *)
| Dashboard (endpoints : list Endpoint) (refresh : Z)   (* the page of lines 115-270 *)
| Stringify (v : Json)                                  (* JSON.stringify(v, null, 2) *)
| Plain (s : string).

Record HttpResponse : Type := mkHttpResponse {
  http_status : Z;
  http_headers : list (string * string);
  body : Body
}.

Definition cors_headers : list (string * string) :=
  [ ("Access-Control-Allow-Origin", "*");
    ("Access-Control-Allow-Methods", "GET, OPTIONS");
    ("Access-Control-Allow-Headers", "Content-Type") ].

(** [new Headers({ ...Object.fromEntries(headers), "Content-Type": ct })] *)
Definition with_content_type (ct : string) : list (string * string) :=
  cors_headers ++ [("Content-Type", ct)].

(** [new Response(JSON.stringify(v, null, 2), ...)], status 200 by default *)
Definition json_response (v : Json) : HttpResponse :=
  mkHttpResponse 200 (with_content_type "application/json") (Stringify v).

(** main.ts, lines 322-328 *)
Definition not_found : HttpResponse :=
  mkHttpResponse 404 (with_content_type "text/plain") (Plain "Not Found").

Definition is_digit (c : ascii) : bool :=
  ((48 <=? nat_of_ascii c) && (nat_of_ascii c <=? 57))%nat.

Fixpoint all_digits (s : string) : bool :=
  match s with
  | EmptyString => true
  | String c rest => is_digit c && all_digits rest
  end.

Fixpoint strip_prefix (p s : string) : option string :=
  match p, s with
  | EmptyString, _ => Some s
  | String a p', String b s' => if Ascii.eqb a b then strip_prefix p' s' else None
  | String _ _, EmptyString => None
  end.

(** [pathname.match(/^\/check\/(\d+)$/)]: the captured group, if the whole
    path is [/check/] followed by one or more decimal digits. *)
Definition one_or_more_digits (s : string) : bool :=
  all_digits s && negb (String.eqb s EmptyString).

Definition match_check_index (path : string) : option string :=
  match strip_prefix "/check/" path with
  | Some digits => if one_or_more_digits digits then Some digits else None
  | None => None
  end.

(** The integer a string of decimal digits denotes, read from the left
    onto [acc]. *)
Fixpoint parseInt_from (acc : Z) (digits : string) : Z :=
  match digits with
  | EmptyString => acc
  | String c rest => parseInt_from (10 * acc + (Z.of_nat (nat_of_ascii c) - 48)) rest
  end.

(** [parseInt] on a string of decimal digits: the number nearest to the
    integer the digits denote, as an engine that rounds correctly (V8)
    gives it. *)
Definition parseInt (digits : string) : Number := fl (parseInt_from 0 digits).

(** The [/check] branch (main.ts, lines 281-293) *)
Definition handle_check (rt : Runtime) : Prog HttpResponse :=
  results ← await_all (map (checkHealth rt) ENDPOINTS);
  set_lastCheckResults results;;
  mret (json_response (JArray results)).

(** The [/last-check] branch (main.ts, lines 296-303) *)
Definition handle_last_check : Prog HttpResponse :=
  cached ← get_lastCheckResults;
  mret (json_response (JArray cached)).

(** Inside the index guard of the [/check/<digits>] branch (main.ts,
    lines 310-317).  [ENDPOINTS[index]] past the end is [undefined], on
    which [checkHealth] throws a [TypeError] from its [catch] block. *)
Definition handle_check_index (rt : Runtime) (index : Number) : Prog HttpResponse :=
  match at_index ENDPOINTS index with
  | Some endpoint =>
      result ← await (checkHealth rt endpoint);
      mret (json_response result)
  | None => Done (Throw (mkError "TypeError"))
  end.

(** main.ts, lines 97-329 *)
Definition handler (rt : Runtime) (req : Request) : Prog HttpResponse :=
  if String.eqb (method req) "OPTIONS" then
    mret (mkHttpResponse 200 cors_headers NoBody)
  else if String.eqb (pathname req) "/" then
    mret (mkHttpResponse 200 (with_content_type "text/html; charset=utf-8")
            (Dashboard ENDPOINTS DEFAULT_REFRESH_INTERVAL))
  else if String.eqb (pathname req) "/check" then
    handle_check rt
  else if String.eqb (pathname req) "/last-check" then
    handle_last_check
  else
    match match_check_index (pathname req) with
    | Some digits =>
        let index := parseInt digits in
        if Number_geb index (Finite 0)
           && Number_ltb index (Finite (Z.of_nat (length ENDPOINTS)))
        then handle_check_index rt index
        else mret not_found
    | None => mret not_found
    end.

(** ** The event loop *)

(** A program parked at an [await], with the time its awaited promises
    were created at: a call of [handler] for a request, or a run of
    [backgroundHealthCheck]. *)
Inductive Suspended : Type :=
| OfRequest (req : Request) (since : Z) (p : Prog HttpResponse)
| OfTimer (since : Z) (p : Prog unit).

(** The module-level variables (main.ts, lines 84-85) and the programs
    the loop has parked. *)
Record Server : Type := mkServer {
  lastCheckResults : list Json;
  healthCheckInterval : option nat;
  suspended : list Suspended
}.

(** What [serve] sends back for a request once its handler settles. *)
Inductive Reply : Type :=
| Replies (req : Request) (r : Result HttpResponse).

(** Runs a program up to its next [await] or its end. *)
Fixpoint run {A} (p : Prog A) (cache : list Json) : list Json * Prog A :=
  match p with
  | ReadCache k => run (k cache) cache
  | WriteCache v k => run k v
  | _ => (cache, p)
  end.

(** One uninterrupted turn of the loop on program [p]: the program ends,
    or is parked behind the programs [others] already waiting. *)
Definition advance {A} (park : Z -> Prog A -> Suspended)
    (reply : Result A -> option Reply) (s : Server) (others : list Suspended)
    (t : Z) (p : Prog A) : Server * option Reply :=
  match run p (lastCheckResults s) with
  | (cache, Done r) => (mkServer cache (healthCheckInterval s) others, reply r)
  | (cache, p') =>
      (mkServer cache (healthCheckInterval s) (others ++ [park t p']), None)
  end.

(** What a program parked since [since] continues with, and when, once
    the promise it awaits settles; [order] is the order in which the
    inputs of a [Promise.all] settle, each of them once. *)
Definition settle {A} (since : Z) (order : list nat) (p : Prog A) : option (Z * Prog A) :=
  match p with
  | AwaitAll ps k =>
      if decide (order ≡ₚ seq 0 (length ps)) then
        match Promise_all JUndefined (map (outcome since) ps) order with
        | Some r => Some (foldr Z.max since (map (settled_at since) ps), k r)
        | None => None
        end
      else None
  | AwaitOne q k => Some (settled_at since q, k (outcome since q))
  | _ => None
  end.

Inductive Event : Type :=
| Arrives (req : Request) (t : Z)       (* serve calls handler(req) at time t *)
| Tick (t : Z)                          (* the interval timer fires at time t *)
| Settles (j : nat) (order : list nat). (* the promise parked program j awaits settles *)

Definition reply_to (req : Request) (r : Result HttpResponse) : option Reply :=
  Some (Replies req r).

Definition no_reply (r : Result unit) : option Reply := None.

(** One turn of the event loop; [None] when the event cannot happen. *)
Definition step (rt : Runtime) (s : Server) (ev : Event) : option (Server * option Reply) :=
  match ev with
  | Arrives req t =>
      Some (advance (OfRequest req) (reply_to req) s (suspended s) t (handler rt req))
  | Tick t =>
      match healthCheckInterval s with
      | Some _ =>
          Some (advance OfTimer no_reply s (suspended s) t (backgroundHealthCheck rt))
      | None => None
      end
  | Settles j order =>
      match suspended s !! j with
      | Some (OfRequest req since p) =>
          match settle since order p with
          | Some (t, p') =>
              Some (advance (OfRequest req) (reply_to req) s (delete j (suspended s)) t p')
          | None => None
          end
      | Some (OfTimer since p) =>
          match settle since order p with
          | Some (t, p') =>
              Some (advance OfTimer no_reply s (delete j (suspended s)) t p')
          | None => None
          end
      | None => None
      end
  end.

(** The module state before the top-level code has run. *)
Definition initial : Server := mkServer [] None [].

(** The top-level code (main.ts, lines 331-343), run at time [t]:
    [healthCheckInterval] is still [null], so one background check starts
    at once and the interval timer (every 900000 ms), whose id
    [setInterval] hands out, is stored.  Each firing of that timer is a
    [Tick]. *)
Definition startup (rt : Runtime) (t : Z) (interval_id : nat) : Server :=
  match healthCheckInterval initial with
  | None =>
      let s := fst (advance OfTimer no_reply initial [] t (backgroundHealthCheck rt)) in
      mkServer (lastCheckResults s) (Some interval_id) (suspended s)
  | Some _ => initial
  end.

(** The states the server can be in. *)
Inductive Reachable (rt : Runtime) : Server -> Prop :=
| reach_startup t id : Reachable rt (startup rt t id)
| reach_step s ev s' out :
    Reachable rt s -> step rt s ev = Some (s', out) -> Reachable rt s'.

(** Several turns of the loop, one event after the other. *)
Fixpoint turns (rt : Runtime) (s : Server) (evs : list Event) : option Server :=
  match evs with
  | [] => Some s
  | ev :: rest =>
      match step rt s ev with
      | Some (s', _) => turns rt s' rest
      | None => None
      end
  end.

Definition is_settlement (ev : Event) : bool :=
  match ev with
  | Settles _ _ => true
  | _ => false
  end.

(** The programs the loop ever parks: a [/check] handler waiting for its
    batch, a [/check/<digits>] handler waiting for its probe, a
    background check waiting for its batch. *)
Inductive Parked (rt : Runtime) : Suspended -> Prop :=
| parked_check req since :
    method req <> "OPTIONS" -> pathname req = "/check" ->
    Parked rt (OfRequest req since (handle_check rt))
| parked_index req since digits endpoint :
    method req <> "OPTIONS" -> pathname req <> "/check" ->
    match_check_index (pathname req) = Some digits ->
    at_index ENDPOINTS (parseInt digits) = Some endpoint ->
    Parked rt (OfRequest req since (handle_check_index rt (parseInt digits)))
| parked_timer since :
    Parked rt (OfTimer since (backgroundHealthCheck rt)).

(** ** Vocabulary of the statements *)

(** The response a probe sent at [t] receives before its deadline. *)
Definition received (rt : Runtime) (u : string) (t : Z) : option Response :=
  match net rt u t with
  | Responds d r => if d <? TIMEOUT_MS then Some r else None
  | Fails _ _ => None
  end.

(** The request of a probe sent at [t] is still in flight when [timeout]
    milliseconds have gone by. *)
Definition exceeds (rt : Runtime) (u : string) (t timeout : Z) : Prop :=
  match net rt u t with
  | Responds d _ => timeout < d
  | Fails d _ => timeout < d
  end.

Definition declares_json (r : Response) : bool :=
  includes (or_empty (headers_get "content-type" (headers r))) "application/json".

(** The body read the prober performs on a response, as a value. *)
Definition body_read (r : Response) : BodyRead Json :=
  if declares_json r then json r
  else mkBodyRead (took (text r))
         match yields (text r) with
         | Ok v => Ok (JString v)
         | Throw e => Throw e
         end.

(** The record of a probe launched at [t]. *)
Definition probe (rt : Runtime) (t : Z) (endpoint : Endpoint) : Json :=
  match outcome t (checkHealth rt endpoint) with
  | Ok record => record
  | Throw _ => JUndefined
  end.

(** The records of the configured endpoints, all probed from [t], in the
    order of the configuration. *)
Definition batch (rt : Runtime) (t : Z) : list Json := map (probe rt t) ENDPOINTS.

Definition present (k : string) (record : Json) : bool :=
  match field k record with
  | Some _ => true
  | None => false
  end.

(** The two shapes of a record. *)
Definition success_shaped (record : Json) : bool :=
  present "latency" record && present "response" record && negb (present "error" record).

Definition failure_shaped (record : Json) : bool :=
  negb (present "latency" record) && negb (present "response" record) && present "error" record.

(** State of a task once [fetchWithTimeout] is through at time [t]: the
    timer it armed is gone again. *)
Definition fetched (s : TaskState) (t : Z) : TaskState :=
  mkTaskState t (S (next_timer s)) (delete (next_timer s) (timers s)).

(** The record of the [try] block and the record of the [catch] block. *)
Definition ok_record (rt : Runtime) (endpoint : Endpoint) (r : Response) (latency : Z)
    (data : Json) (t : Z) : Json :=
  JObject
    [ ("name", JString (name endpoint));
      ("url", JString (url endpoint));
      ("status", JNumber (status r));
      ("healthy", JBool ((200 <=? status r) && (status r <? 300)));
      ("latency", JString (pretty latency +:+ "ms"));
      ("response", data);
      ("timestamp", JString (toISOString rt t)) ].

Definition failed_record (rt : Runtime) (endpoint : Endpoint) (e : JsError) (t : Z) : Json :=
  JObject
    [ ("name", JString (name endpoint));
      ("url", JString (url endpoint));
      ("status", JNumber 0);
      ("healthy", JBool false);
      ("error", JString (message e));
      ("timestamp", JString (toISOString rt t)) ].

(** An answer the server gives: status 200 or 404, and the three CORS
    headers in front of whatever else it carries. *)
Definition well_formed_answer (r : Result HttpResponse) : Prop :=
  exists resp more,
    r = Ok resp /\
    (http_status resp = 200 \/ http_status resp = 404) /\
    http_headers resp = (cors_headers ++ more)%list.

(** What the settlement of parked program [j] does to the server, by
    the kind of program it resumes. *)
Inductive Settlement (rt : Runtime) (s : Server) (j : nat) : Server -> option Reply -> Prop :=
| settlement_check req since :
    suspended s !! j = Some (OfRequest req since (handle_check rt)) ->
    method req <> "OPTIONS" -> pathname req = "/check" ->
    Settlement rt s j
      (mkServer (batch rt since) (healthCheckInterval s) (delete j (suspended s)))
      (Some (Replies req (Ok (json_response (JArray (batch rt since))))))
| settlement_index req since digits endpoint :
    suspended s !! j = Some (OfRequest req since (handle_check_index rt (parseInt digits))) ->
    method req <> "OPTIONS" -> pathname req <> "/check" ->
    match_check_index (pathname req) = Some digits ->
    at_index ENDPOINTS (parseInt digits) = Some endpoint ->
    Settlement rt s j
      (mkServer (lastCheckResults s) (healthCheckInterval s) (delete j (suspended s)))
      (Some (Replies req (Ok (json_response (probe rt since endpoint)))))
| settlement_timer since :
    suspended s !! j = Some (OfTimer since (backgroundHealthCheck rt)) ->
    Settlement rt s j
      (mkServer (batch rt since) (healthCheckInterval s) (delete j (suspended s)))
      None.

(** ** The dashboard script (main.ts, lines 154-268) *)

(** The script the root page carries runs in a browser.  Its state is
    its four variables, the two elements of the document it writes to,
    and what the browser keeps for it: timers and requests under way. *)
Module Script.

(** Pieces of a template literal: literal text, [${v}],
    [${JSON.stringify(v, null, 2)}] and
    [${new Date(v).toLocaleString()}]. *)
Inductive Fragment : Type :=
| Lit (s : string)
| Subst (v : Json)
| SubstJson (v : Json)
| SubstLocale (v : Json).

(** A child of [#results]: markup assigned to [innerHTML], or a card
    [div] appended to it. *)
Inductive Node : Type :=
| Markup (html : list Fragment)
| CardDiv (className : string) (html : list Fragment).

Record Page : Type := mkPage {
  autoRefreshEnabled : bool;
  refreshInterval : Number;           (* minutes *)
  refreshTimeoutId : option nat;      (* undefined until the first setTimeout *)
  nextRefreshTime : option Z;         (* the time value of the date; None while
                                         undefined and for an Invalid Date, which
                                         are both NaN in a subtraction *)
  next_refresh : string;              (* textContent of #next-refresh *)
  results : list Node;                (* children of #results *)
  next_id : nat;                      (* the id the next timer gets *)
  timeouts : gmap nat Z;              (* armed refresh callbacks, with the time asked for *)
  intervals : list nat;               (* live display intervals, oldest first *)
  in_flight : nat;                    (* calls of checkHealth waiting for /check *)
  requested : nat                     (* requests for /check sent so far *)
}.

(** What the engine throws where the script reaches into a value that
    has no such property. *)
Record Engine : Type := mkEngine {
  not_a_function : JsError;           (* data.forEach on what has no forEach *)
  no_properties : JsError             (* a property of null or undefined *)
}.

(** Lines 156-159, with the interval the server wrote into the page.
    Timer ids are positive integers, counted from 1. *)
Definition initial (refresh : Z) : Page :=
  mkPage true (fl refresh) None None EmptyString [] 1 ∅ [] 0 0.

Definition set_autoRefreshEnabled (b : bool) (p : Page) : Page :=
  mkPage b (refreshInterval p) (refreshTimeoutId p) (nextRefreshTime p) (next_refresh p)
    (results p) (next_id p) (timeouts p) (intervals p) (in_flight p) (requested p).

Definition set_refreshInterval (v : Number) (p : Page) : Page :=
  mkPage (autoRefreshEnabled p) v (refreshTimeoutId p) (nextRefreshTime p) (next_refresh p)
    (results p) (next_id p) (timeouts p) (intervals p) (in_flight p) (requested p).

Definition set_refreshTimeoutId (id : nat) (p : Page) : Page :=
  mkPage (autoRefreshEnabled p) (refreshInterval p) (Some id) (nextRefreshTime p)
    (next_refresh p) (results p) (next_id p) (timeouts p) (intervals p) (in_flight p)
    (requested p).

Definition set_nextRefreshTime (date : option Z) (p : Page) : Page :=
  mkPage (autoRefreshEnabled p) (refreshInterval p) (refreshTimeoutId p) date
    (next_refresh p) (results p) (next_id p) (timeouts p) (intervals p) (in_flight p)
    (requested p).

(** [document.getElementById('next-refresh').textContent = text] *)
Definition set_next_refresh (text : string) (p : Page) : Page :=
  mkPage (autoRefreshEnabled p) (refreshInterval p) (refreshTimeoutId p) (nextRefreshTime p)
    text (results p) (next_id p) (timeouts p) (intervals p) (in_flight p) (requested p).

(** [results.innerHTML = ...] and [results.appendChild(card)] *)
Definition set_results (nodes : list Node) (p : Page) : Page :=
  mkPage (autoRefreshEnabled p) (refreshInterval p) (refreshTimeoutId p) (nextRefreshTime p)
    (next_refresh p) nodes (next_id p) (timeouts p) (intervals p) (in_flight p)
    (requested p).

(** [setTimeout(callback, delay)] at time [now], for the one callback
    the script gives it (lines 187-190); the timer runs with the delay
    converted to a 32-bit integer. *)
Definition setTimeout (now : Z) (delay : Number) (p : Page) : nat * Page :=
  (next_id p,
   mkPage (autoRefreshEnabled p) (refreshInterval p) (refreshTimeoutId p) (nextRefreshTime p)
     (next_refresh p) (results p) (S (next_id p))
     (<[next_id p := now + timer_delay_of delay]> (timeouts p))
     (intervals p) (in_flight p) (requested p)).

(** [setInterval(updateNextRefreshDisplay, 1000)] *)
Definition setInterval (p : Page) : nat * Page :=
  (next_id p,
   mkPage (autoRefreshEnabled p) (refreshInterval p) (refreshTimeoutId p) (nextRefreshTime p)
     (next_refresh p) (results p) (S (next_id p)) (timeouts p)
     (intervals p ++ [next_id p]) (in_flight p) (requested p)).

(** [clearTimeout(id)]; timeouts and intervals share their ids, and it
    cancels whichever of them has this one. *)
Definition clearTimeout (id : nat) (p : Page) : Page :=
  mkPage (autoRefreshEnabled p) (refreshInterval p) (refreshTimeoutId p) (nextRefreshTime p)
    (next_refresh p) (results p) (next_id p) (delete id (timeouts p))
    (filter (fun i => i <> id) (intervals p)) (in_flight p) (requested p).

(** [fetch('/check')]: one more request sent, one more call waiting. *)
Definition fetch_check (p : Page) : Page :=
  mkPage (autoRefreshEnabled p) (refreshInterval p) (refreshTimeoutId p) (nextRefreshTime p)
    (next_refresh p) (results p) (next_id p) (timeouts p) (intervals p)
    (S (in_flight p)) (S (requested p)).

Definition answered (p : Page) : Page :=
  mkPage (autoRefreshEnabled p) (refreshInterval p) (refreshTimeoutId p) (nextRefreshTime p)
    (next_refresh p) (results p) (next_id p) (timeouts p) (intervals p)
    (pred (in_flight p)) (requested p).

(** [if (refreshTimeoutId)]: an id that is set and is not 0. *)
Definition armed_id (p : Page) : option nat :=
  match refreshTimeoutId p with
  | Some (S n) => Some (S n)
  | _ => None
  end.

(** [if (refreshTimeoutId) { clearTimeout(refreshTimeoutId); }] *)
Definition cancelled (p : Page) : Page :=
  match armed_id p with
  | Some id => clearTimeout id p
  | None => p
  end.

(** [if (v)] on a value *)
Definition truthy (v : Json) : bool :=
  match v with
  | JUndefined | JNull => false
  | JBool b => b
  | JNumber n => negb (n =? 0)
  | JString s => negb (String.eqb s EmptyString)
  | JArray _ | JObject _ => true
  end.

(** [item.k] on an item that is neither null nor undefined:
    [undefined] where there is no such property. *)
Definition prop (item : Json) (k : string) : Json :=
  match field k item with
  | Some v => v
  | None => JUndefined
  end.

(** The double quote. *)
Definition dq : string := String (ascii_of_nat 34) EmptyString.

(** Lines 161-176.  [now] is what [new Date()] reads.  Rounding the
    milliseconds left to seconds is [Math.round], which rounds halves
    up; on an undefined [nextRefreshTime] the difference is NaN and the
    test fails. *)
Definition updateNextRefreshDisplay (now : Z) (p : Page) : Page :=
  if negb (autoRefreshEnabled p) then set_next_refresh EmptyString p
  else
    match nextRefreshTime p with
    | Some next =>
        let timeLeft := (next - now + 500) / 1000 in
        let minutes := timeLeft / 60 in
        let seconds := Z.rem timeLeft 60 in
        if 0 <? timeLeft then
          set_next_refresh
            ("(下次刷新: " +:+ pretty minutes +:+ "分" +:+ pretty seconds +:+ "秒后)") p
        else p
    | None => p
    end.

(** Lines 198-200 and 203: [checkHealth] up to its first [await]. *)
Definition checkHealth (p : Page) : Page :=
  fetch_check (set_results [Markup [Lit "<p>正在加载...</p>"]] p).

(** Lines 178-196.  [now] is what [Date.now()] reads and [now'] what
    [new Date()] reads a moment later in [updateNextRefreshDisplay]. *)
Definition startRefreshTimer (now now' : Z) (p : Page) : Page :=
  let p := cancelled p in
  if autoRefreshEnabled p then
    let intervalMs := Number_mul (Number_mul (refreshInterval p) (Finite 60)) (Finite 1000) in
    let p := set_nextRefreshTime (new_Date (Number_add (Finite now) intervalMs)) p in
    let '(id, p) := setTimeout now intervalMs p in
    let p := set_refreshTimeoutId id p in
    let p := updateNextRefreshDisplay now' p in
    snd (setInterval p)
  else p.

(** The callback of the refresh timeout (lines 187-190). *)
Definition refresh (now now' : Z) (p : Page) : Page :=
  startRefreshTimer now now' (checkHealth p).

(** Lines 208-231: the card of one item.  The first property read,
    [item.healthy], throws when the item is null or undefined. *)
Definition card (engine : Engine) (item : Json) : Result Node :=
  match item with
  | JUndefined | JNull => Throw (no_properties engine)
  | _ =>
      let className :=
        "card " +:+ (if truthy (prop item "healthy") then "healthy" else "unhealthy") in
      let content :=
        [ Lit "
                  <h2>"; Subst (prop item "name"); Lit ("</h2>
                  <p class=" +:+ dq +:+ "status" +:+ dq +:+ ">状态: ");
          Lit (if truthy (prop item "healthy") then "✅ 健康" else "❌ 异常");
          Lit ("</p>
                  <p>URL: <a href=" +:+ dq); Subst (prop item "url");
          Lit (dq +:+ " target=" +:+ dq +:+ "_blank" +:+ dq +:+ ">"); Subst (prop item "url");
          Lit "</a></p>
                  <p>HTTP状态: "; Subst (prop item "status"); Lit "</p>
                " ] in
      let content :=
        if truthy (prop item "latency") then
          (content ++ [ Lit ("<p class=" +:+ dq +:+ "latency" +:+ dq +:+ ">延迟: ");
                        Subst (prop item "latency"); Lit "</p>" ])%list
        else content in
      let content :=
        if truthy (prop item "error") then
          (content ++ [ Lit "<p>错误: "; Subst (prop item "error"); Lit "</p>" ])%list
        else if truthy (prop item "response") then
          (content ++ [ Lit "<pre>"; SubstJson (prop item "response"); Lit "</pre>" ])%list
        else content in
      let content :=
        (content ++ [ Lit "<p>检查时间: "; SubstLocale (prop item "timestamp");
                      Lit "</p>" ])%list in
      Ok (CardDiv className content)
  end.

(** [data.forEach(item => ...)] on an array: the cards appended so far,
    or what an item threw. *)
Fixpoint cards (engine : Engine) (items : list Json) (nodes : list Node) : Result (list Node) :=
  match items with
  | [] => Ok nodes
  | item :: rest =>
      match card engine item with
      | Ok node => cards engine rest (nodes ++ [node])
      | Throw e => Throw e
      end
  end.

(** Lines 204-235: [checkHealth] from the moment the request and the
    body read have settled with [r]. *)
Definition checkHealth_continued (engine : Engine) (r : Result Json) (p : Page) : Page :=
  let failed (e : JsError) :=
    set_results [Markup [Lit "<p>获取健康状态失败: "; Subst (JString (message e)); Lit "</p>"]] p in
  match r with
  | Ok (JArray items) =>
      match cards engine items [] with
      | Ok nodes => set_results nodes p
      | Throw e => failed e
      end
  | Ok JUndefined | Ok JNull => failed (no_properties engine)
  | Ok _ => failed (not_a_function engine)
  | Throw e => failed e
  end.

(** What happens on the page: the three listeners (lines 239-263), the
    two kinds of timer, and the answer to a request of [checkHealth]. *)
Inductive Event : Type :=
| Click                                  (* on #refresh *)
| ChangeAutoRefresh (checked : bool)     (* e.target.checked *)
| ChangeInterval (value : option Z)      (* the integer parseInt reads off
                                            e.target.value; None where it reads NaN *)
| TimeoutFires (id : nat)
| IntervalFires (id : nat)
| Answered (r : Result Json).

(** One turn of the page's event loop, at clock readings [now] and then
    [now']; [None] when the event cannot happen. *)
Definition react (engine : Engine) (now now' : Z) (ev : Event) (p : Page) : option Page :=
  match ev with
  | Click => Some (checkHealth p)
  | ChangeAutoRefresh checked =>
      let p := set_autoRefreshEnabled checked p in
      if autoRefreshEnabled p then Some (startRefreshTimer now now' p)
      else Some (set_next_refresh EmptyString (cancelled p))
  | ChangeInterval value =>
      let value := match value with Some v => fl v | None => NaN end in
      if Number_ltb (Finite 0) value then
        let p := set_refreshInterval value p in
        if autoRefreshEnabled p then Some (startRefreshTimer now now' p) else Some p
      else Some p
  | TimeoutFires id =>
      match timeouts p !! id with
      | Some _ =>
          let p :=
            mkPage (autoRefreshEnabled p) (refreshInterval p) (refreshTimeoutId p)
              (nextRefreshTime p) (next_refresh p) (results p) (next_id p)
              (delete id (timeouts p)) (intervals p) (in_flight p) (requested p) in
          Some (refresh now now' p)
      | None => None
      end
  | IntervalFires id =>
      if decide (id ∈ intervals p) then Some (updateNextRefreshDisplay now p) else None
  | Answered r =>
      match in_flight p with
      | S _ => Some (checkHealth_continued engine r (answered p))
      | O => None
      end
  end.

(** Lines 266-267: what the script does when the page has loaded. *)
Definition loaded (refresh_minutes now now' : Z) : Page :=
  startRefreshTimer now now' (checkHealth (initial refresh_minutes)).

(** The states of the page served by the handler. *)
Inductive Reachable (engine : Engine) : Page -> Prop :=
| reach_loaded now now' :
    Reachable engine (loaded DEFAULT_REFRESH_INTERVAL now now')
| reach_react p now now' ev p' :
    Reachable engine p -> react engine now now' ev p = Some p' -> Reachable engine p'.

(** Whether a piece of markup contains the literal text [s]. *)
Definition has_lit (s : string) (html : list Fragment) : bool :=
  existsb (fun f => match f with Lit s' => String.eqb s s' | _ => false end) html.

(** Timer ids are in order: ids are handed out from 1 upwards, the
    interval is a positive number of minutes, the id the script holds is
    one it was given for a timeout, and no timeout is armed but the one
    whose id it holds. *)
Definition Loose (p : Page) : Prop :=
  (1 <= next_id p)%nat /\
  Number_ltb (Finite 0) (refreshInterval p) = true /\
  (forall id, id ∈ intervals p -> (1 <= id < next_id p)%nat) /\
  (forall id, refreshTimeoutId p = Some id -> (1 <= id < next_id p)%nat /\ id ∉ intervals p) /\
  (forall id t, timeouts p !! id = Some t -> refreshTimeoutId p = Some id).

(** With auto refresh on, exactly one refresh is armed, for no later
    than the time the countdown runs to; with auto refresh off, none. *)
Definition Armed (p : Page) : Prop :=
  if autoRefreshEnabled p then
    exists id t,
      refreshTimeoutId p = Some id /\ timeouts p = {[id := t]} /\
      forall next, nextRefreshTime p = Some next -> t <= next
  else timeouts p = ∅.

(** Two pages with the same variables and the same timers. *)
Definition same_timers (p q : Page) : Prop :=
  autoRefreshEnabled q = autoRefreshEnabled p /\
  refreshInterval q = refreshInterval p /\
  refreshTimeoutId q = refreshTimeoutId p /\
  nextRefreshTime q = nextRefreshTime p /\
  next_id q = next_id p /\
  timeouts q = timeouts p /\
  intervals q = intervals p.

End Script.

(** ** Sample runtimes *)

Module Samples.

Definition aborted : JsError := mkError "The signal has been aborted".

Definition iso (t : Z) : string := "T+" +:+ pretty t.

(** Every endpoint answers 200 with a JSON body after 120 ms. *)
Definition up : Response :=
  mkResponse 200 [("content-type", "application/json; charset=utf-8")]
    (mkBodyRead 3 (Ok (JObject [("status", JString "ok")])))
    (mkBodyRead 3 (Ok "ok")).

Definition rt_up : Runtime :=
  mkRuntime (fun _ _ => Responds 120 up) aborted iso.

(** Every endpoint answers 503 with a text body after 40 ms. *)
Definition down : Response :=
  mkResponse 503 [("content-type", "text/plain")]
    (mkBodyRead 1 (Throw (mkError "Unexpected token S in JSON at position 0")))
    (mkBodyRead 1 (Ok "Service Unavailable")).

Definition rt_down : Runtime :=
  mkRuntime (fun _ _ => Responds 40 down) aborted iso.

(** Every endpoint answers 503 after 40 ms and drops the connection
    while the body is read. *)
Definition cut_off : Response :=
  mkResponse 503 [("content-type", "text/plain")]
    (mkBodyRead 1 (Throw (mkError "error reading a body from connection")))
    (mkBodyRead 1 (Throw (mkError "error reading a body from connection"))).

Definition rt_cut_off : Runtime :=
  mkRuntime (fun _ _ => Responds 40 cut_off) aborted iso.

(** Every endpoint answers 200, declares JSON and sends a body that
    does not parse. *)
Definition garbled : Response :=
  mkResponse 200 [("content-type", "application/json")]
    (mkBodyRead 2 (Throw (mkError "Unexpected end of JSON input")))
    (mkBodyRead 2 (Ok "{")).

Definition rt_garbled : Runtime :=
  mkRuntime (fun _ _ => Responds 25 garbled) aborted iso.

(** Every endpoint answers 200 with a JSON body, its content type
    written in capitals. *)
Definition capitals : Response :=
  mkResponse 200 [("content-type", "Application/JSON")]
    (mkBodyRead 3 (Ok (JArray [JNumber 1])))
    (mkBodyRead 3 (Ok "[1]")).

Definition rt_capitals : Runtime :=
  mkRuntime (fun _ _ => Responds 120 capitals) aborted iso.

(** Every endpoint answers after 7 seconds. *)
Definition rt_slow : Runtime :=
  mkRuntime (fun _ _ => Responds 7000 up) aborted iso.

(** Name resolution fails after 10 ms. *)
Definition rt_unreachable : Runtime :=
  mkRuntime (fun _ _ => Fails 10 (mkError "dns error")) aborted iso.

Definition demo : Endpoint := mkEndpoint "Demo API" "https://luckiness-test-df-demo.hf.space/health".

(** The TypeErrors of one browser engine. *)
Definition chromium : Script.Engine :=
  Script.mkEngine (mkError "data.forEach is not a function")
    (mkError "Cannot read properties of null (reading 'healthy')").

End Samples.

(** ** Numbers *)

Section Numbers.

Lemma fl_exact z : Z.abs z <= 2 ^ 53 -> fl z = Finite z.
Proof. intros Hz. unfold fl. by rewrite (proj2 (Z.leb_le _ _) Hz). Qed.

(** Rounding does not take a number beyond 2^53 in magnitude below
    it. *)
Lemma fl_big z :
  2 ^ 53 < Z.abs z ->
  exists m,
    2 ^ 53 <= m /\
    fl z = if m <? 2 ^ 1024 then Finite (Z.sgn z * m) else Infinity (z <? 0).
Proof.
  intros Hz. assert (H53 : 0 < 2 ^ 53) by done.
  unfold fl. destruct (Z.leb_spec (Z.abs z) (2 ^ 53)) as [| _]; [lia |].
  set (a := Z.abs z) in *.
  assert (Hlog : 53 <= Z.log2 a) by (apply Z.log2_le_pow2; lia).
  destruct (Z.log2_spec a) as [Hlow _]; [lia |].
  set (e := Z.log2 a - 52) in *. cbv zeta.
  set (q := a / 2 ^ e).
  set (q' := if _ : bool then q + 1 else q).
  assert (He : 2 <= 2 ^ e).
  { change 2 with (2 ^ 1) at 1. apply Z.pow_le_mono_r; lia. }
  assert (Hq : 2 ^ 52 <= q).
  { apply Z.div_le_lower_bound; [lia |].
    rewrite <- Z.pow_add_r by lia. by replace (e + 52) with (Z.log2 a) by lia. }
  assert (Hq' : 2 ^ 52 <= q') by (subst q'; case_match; lia).
  exists (q' * 2 ^ e). split; [| done].
  change (2 ^ 53) with (2 ^ 52 * 2). apply Z.mul_le_mono_nonneg; lia.
Qed.

Lemma fl_above z :
  2 ^ 53 < z ->
  (exists m, fl z = Finite m /\ 2 ^ 53 <= m) \/ fl z = Infinity false.
Proof.
  intros Hz. destruct (fl_big z) as (m & Hm & ->); [lia |].
  rewrite Z.sgn_pos, (proj2 (Z.ltb_ge z 0)) by lia.
  destruct (m <? 2 ^ 1024); [left | by right].
  exists (1 * m). split; [done | lia].
Qed.

Lemma fl_below z :
  z < - 2 ^ 53 ->
  (exists m, fl z = Finite m /\ m <= - 2 ^ 53) \/ fl z = Infinity true.
Proof.
  intros Hz. destruct (fl_big z) as (m & Hm & ->); [lia |].
  rewrite Z.sgn_neg, (proj2 (Z.ltb_lt z 0)) by lia.
  destruct (m <? 2 ^ 1024); [left | by right].
  exists (-1 * m). split; [done | lia].
Qed.

(** Rounding keeps the sign. *)
Lemma fl_sign z : Number_ltb (Finite 0) (fl z) = (0 <? z).
Proof.
  destruct (Z.le_gt_cases (Z.abs z) (2 ^ 53)) as [Hsmall | Hbig].
  { by rewrite fl_exact. }
  destruct (Z.lt_ge_cases z 0) as [Hneg | Hpos].
  - rewrite (proj2 (Z.ltb_ge 0 z)) by lia.
    destruct (fl_below z) as [(m & -> & Hm) | ->]; [lia | | done].
    cbn. apply Z.ltb_ge. lia.
  - rewrite (proj2 (Z.ltb_lt 0 z)) by lia.
    destruct (fl_above z) as [(m & -> & Hm) | ->]; [lia | | done].
    cbn. apply Z.ltb_lt. lia.
Qed.


(** A number no less than [b]. *)
Lemma fl_at_least z b :
  0 <= b <= 2 ^ 53 -> b <= z ->
  (exists m, fl z = Finite m /\ b <= m) \/ fl z = Infinity false.
Proof.
  intros Hb Hz. destruct (Z.le_gt_cases z (2 ^ 53)) as [Hsmall | Hbig].
  - left. exists z. split; [| done]. apply fl_exact. rewrite Z.abs_eq; lia.
  - destruct (fl_above z Hbig) as [(m & -> & Hm) | ->]; [left | by right].
    exists m. split; [done | lia].
Qed.

(** A valid date holds the number it was made from, exactly. *)
Lemma new_Date_fl z next : new_Date (fl z) = Some next -> next = z.
Proof.
  destruct (Z.le_gt_cases (Z.abs z) (2 ^ 53)) as [Hsmall | Hbig].
  - rewrite fl_exact by done. cbn. by destruct (_ <=? _); intros [= <-].
  - destruct (fl_big z Hbig) as (m & Hm & ->).
    destruct (m <? 2 ^ 1024); [| done]. cbn.
    destruct (Z.leb_spec (Z.abs (Z.sgn z * m)) 8640000000000000) as [Hin |]; [| done].
    rewrite Z.abs_mul in Hin. change (2 ^ 53) with 9007199254740992 in *. nia.
Qed.

Lemma timer_delay_le k : 0 <= k -> 0 <= timer_delay k <= k.
Proof.
  intros Hk. unfold timer_delay, long.
  pose proof (Z.mod_le (k + 2 ^ 31) (2 ^ 32) ltac:(lia) ltac:(done)). lia.
Qed.

Lemma timer_delay_cases timeout :
  0 <= timer_delay timeout /\
  (0 <= timeout < 2 ^ 31 -> timer_delay timeout = timeout) /\
  (- 2 ^ 31 <= timeout < 0 -> timer_delay timeout = 0).
Proof.
  unfold timer_delay, long. split; [lia |]. split; intros Hrange.
  - rewrite Z.mod_small by lia. lia.
  - rewrite Z.mod_small by lia. lia.
Qed.

End Numbers.

(** ** The prober *)

Section Prober.
Context (rt : Runtime).

Lemma fetchWithTimeout_run u timeout s :
  fetchWithTimeout rt u timeout s =
    match net rt u (now s) with
    | Responds d r =>
        if d <? timer_delay timeout then (fetched s (now s + d), Ok r)
        else (fetched s (now s + timer_delay timeout), Throw (abort_reason rt))
    | Fails d e =>
        if d <? timer_delay timeout then (fetched s (now s + d), Throw e)
        else (fetched s (now s + timer_delay timeout), Throw (abort_reason rt))
    end.
Proof.
  unfold fetchWithTimeout, mbind, Task_bind, bind, setTimeout_abort, try_catch, fetch.
  cbn [now next_timer timers]. rewrite lookup_insert_eq.
  generalize (timer_delay timeout). intros delay.
  assert (Hlt : forall d, (now s + d <? now s + delay) = (d <? delay)).
  { intros d. destruct (Z.ltb_spec d delay), (Z.ltb_spec (now s + d) (now s + delay)); lia. }
  unfold fetched.
  destruct (net rt u (now s)) as [d r | d e]; rewrite Hlt; destruct (d <? delay);
    cbn; rewrite ?delete_insert_eq; reflexivity.
Qed.

Lemma timer_delay_TIMEOUT_MS : timer_delay TIMEOUT_MS = TIMEOUT_MS.
Proof. reflexivity. Qed.

(** Every path through [checkHealth], one equation. *)
Lemma checkHealth_run endpoint s :
  checkHealth rt endpoint s =
    match net rt (url endpoint) (now s) with
    | Responds d r =>
        if d <? TIMEOUT_MS then
          let t := now s + d + took (body_read r) in
          match yields (body_read r) with
          | Ok data => (fetched s t, Ok (ok_record rt endpoint r d data t))
          | Throw e => (fetched s t, Ok (failed_record rt endpoint e t))
          end
        else
          let t := now s + TIMEOUT_MS in
          (fetched s t, Ok (failed_record rt endpoint (abort_reason rt) t))
    | Fails d e =>
        if d <? TIMEOUT_MS then
          (fetched s (now s + d), Ok (failed_record rt endpoint e (now s + d)))
        else
          let t := now s + TIMEOUT_MS in
          (fetched s t, Ok (failed_record rt endpoint (abort_reason rt) t))
    end.
Proof.
  unfold checkHealth, try_catch, mbind, Task_bind, bind, console_log, Date_now, ret.
  rewrite fetchWithTimeout_run, timer_delay_TIMEOUT_MS.
  destruct (net rt (url endpoint) (now s)) as [d r | d e];
    destruct (d <? TIMEOUT_MS); try reflexivity.
  unfold body_read, declares_json.
  cbn [now fetched]. replace (now s + d - now s) with d by lia.
  destruct (includes _ _); unfold read_body, elapse, fetched; cbn;
    [ destruct (yields (json r)) | destruct (yields (text r)) ]; reflexivity.
Qed.

End Prober.


(** ** Properties of the prober *)

Section ProberProperties.
Context (rt : Runtime).

Lemma outcome_checkHealth t endpoint :
  outcome t (checkHealth rt endpoint) = Ok (probe rt t endpoint).
Proof.
  unfold probe, outcome. rewrite checkHealth_run.
  destruct (net rt (url endpoint) (now (launch t))) as [d r | d e];
    destruct (d <? TIMEOUT_MS); cbn; try reflexivity.
  destruct (yields (body_read r)); reflexivity.
Qed.

(** The record of a probe, by what the network did. *)
Lemma probe_cases t endpoint :
  probe rt t endpoint =
    match net rt (url endpoint) t with
    | Responds d r =>
        if d <? TIMEOUT_MS then
          match yields (body_read r) with
          | Ok data =>
              ok_record rt endpoint r d data (t + d + took (body_read r))
          | Throw e => failed_record rt endpoint e (t + d + took (body_read r))
          end
        else failed_record rt endpoint (abort_reason rt) (t + TIMEOUT_MS)
    | Fails d e =>
        if d <? TIMEOUT_MS then failed_record rt endpoint e (t + d)
        else failed_record rt endpoint (abort_reason rt) (t + TIMEOUT_MS)
    end.
Proof.
  unfold probe, outcome. rewrite checkHealth_run. cbn [now launch].
  destruct (net rt (url endpoint) t) as [d r | d e];
    destruct (d <? TIMEOUT_MS); cbn; try reflexivity.
  destruct (yields (body_read r)); reflexivity.
Qed.

(** C2: every record [checkHealth] produces has exactly one of the two
    shapes (latency and response and no error, or error and neither
    latency nor response), and carries [healthy], equal to
    [200 <= status < 300] on the record's own status. *)
Theorem record_shape endpoint s :
  exists s' record,
    checkHealth rt endpoint s = (s', Ok record) /\
    success_shaped record = negb (failure_shaped record) /\
    exists st,
      field "status" record = Some (JNumber st) /\
      field "healthy" record = Some (JBool ((200 <=? st) && (st <? 300))).
Proof.
  rewrite checkHealth_run.
  destruct (net rt (url endpoint) (now s)) as [d r | d e];
    destruct (d <? TIMEOUT_MS); cbn zeta;
    try destruct (yields (body_read r));
    eexists _, _; (split; [reflexivity |]); (split; [reflexivity |]);
    eexists; split; reflexivity.
Qed.


Lemma received_Some t u r :
  received rt u t = Some r ->
  exists d, net rt u t = Responds d r /\ (d <? TIMEOUT_MS) = true.
Proof.
  unfold received. destruct (net rt u t) as [d r' | d e]; [| discriminate].
  destruct (d <? TIMEOUT_MS) eqn:Hd; [| discriminate].
  intros [= ->]. eauto.
Qed.

Lemma probe_received t endpoint r :
  received rt (url endpoint) t = Some r ->
  exists d,
    probe rt t endpoint =
      match yields (body_read r) with
      | Ok data => ok_record rt endpoint r d data (t + d + took (body_read r))
      | Throw e => failed_record rt endpoint e (t + d + took (body_read r))
      end.
Proof.
  intros (d & Hnet & Hd)%received_Some. exists d.
  rewrite probe_cases, Hnet, Hd. reflexivity.
Qed.

(** C3, amended: a 200 response whose content-type header contains the
    string application/json (compared as written, so in lower case) and
    whose body parses gives healthy = true, status = 200, the parsed
    value as response and no error; a 503 response whose body is read
    without a throw gives healthy = false, status = 503 and no error;
    and for every response whose body is read, healthy is
    [200 <= status < 300]. *)
Theorem responded_record :
  (forall endpoint t r ct v,
      received rt (url endpoint) t = Some r ->
      status r = 200 ->
      headers_get "content-type" (headers r) = Some ct ->
      includes ct "application/json" = true ->
      yields (json r) = Ok v ->
      let record := probe rt t endpoint in
      field "healthy" record = Some (JBool true) /\
      field "status" record = Some (JNumber 200) /\
      field "response" record = Some v /\
      field "error" record = None) /\
  (forall endpoint t r data,
      received rt (url endpoint) t = Some r ->
      status r = 503 -> yields (body_read r) = Ok data ->
      let record := probe rt t endpoint in
      field "healthy" record = Some (JBool false) /\
      field "status" record = Some (JNumber 503) /\
      field "error" record = None) /\
  (forall endpoint t r data,
      received rt (url endpoint) t = Some r ->
      yields (body_read r) = Ok data ->
      let record := probe rt t endpoint in
      field "status" record = Some (JNumber (status r)) /\
      field "healthy" record = Some (JBool ((200 <=? status r) && (status r <? 300))) /\
      field "error" record = None).
Proof.
  split; [| split].
  - intros endpoint t r ct v [d Hp]%probe_received Hst Hct Hincludes Hv record.
    assert (Hjson : declares_json r = true).
    { unfold declares_json. by rewrite Hct. }
    subst record. rewrite Hp. unfold body_read. rewrite Hjson, Hv.
    cbn. rewrite Hst. auto.
  - intros endpoint t r data [d Hp]%probe_received Hst Hdata record.
    subst record. rewrite Hp, Hdata. cbn. rewrite Hst. auto.
  - intros endpoint t r data [d Hp]%probe_received Hdata record.
    subst record. rewrite Hp, Hdata. cbn. auto.
Qed.

(** C5: a request still in flight when the timeout (5000 ms) has gone
    by is aborted at the deadline, and the record has status = 0,
    healthy = false, the abort reason as error, and neither latency nor
    response. *)
Theorem timed_out_record endpoint t :
  exceeds rt (url endpoint) t TIMEOUT_MS ->
  let record := probe rt t endpoint in
  TIMEOUT_MS = 5000 /\
  outcome t (fetchWithTimeout rt (url endpoint) TIMEOUT_MS) = Throw (abort_reason rt) /\
  settled_at t (fetchWithTimeout rt (url endpoint) TIMEOUT_MS) = t + 5000 /\
  field "status" record = Some (JNumber 0) /\
  field "healthy" record = Some (JBool false) /\
  field "error" record = Some (JString (message (abort_reason rt))) /\
  field "latency" record = None /\
  field "response" record = None.
Proof.
  intros Hex record. subst record. unfold exceeds, outcome, settled_at in *.
  rewrite probe_cases, fetchWithTimeout_run, timer_delay_TIMEOUT_MS. cbn [now launch].
  destruct (net rt (url endpoint) t) as [d r | d e];
    (destruct (Z.ltb_spec d TIMEOUT_MS); [lia |]); cbn; auto 10.
Qed.

(** C6, amended: a body read that throws gives the record a transport
    failure with the same error gives (status = 0, healthy = false,
    that error, neither latency nor response); and, HTTP responses not
    carrying status 0, a record has status = 0 only when the probe
    received no response or the body read of the response it received
    threw. *)
Theorem body_failure_record endpoint t :
  (forall r e,
      received rt (url endpoint) t = Some r ->
      yields (body_read r) = Throw e ->
      let record := probe rt t endpoint in
      (exists t', record = failed_record rt endpoint e t') /\
      field "status" record = Some (JNumber 0) /\
      field "healthy" record = Some (JBool false) /\
      field "error" record = Some (JString (message e)) /\
      field "latency" record = None /\
      field "response" record = None) /\
  (forall d e,
      net rt (url endpoint) t = Fails d e -> d < TIMEOUT_MS ->
      probe rt t endpoint = failed_record rt endpoint e (t + d)) /\
  ((forall r, received rt (url endpoint) t = Some r -> status r <> 0) ->
   field "status" (probe rt t endpoint) = Some (JNumber 0) ->
   match received rt (url endpoint) t with
   | None => True
   | Some r => exists e, yields (body_read r) = Throw e
   end).
Proof.
  split; [| split].
  - intros r e [d Hp]%probe_received He record. subst record.
    rewrite Hp, He. cbn. eauto 10.
  - intros d e Hnet Hd. rewrite probe_cases, Hnet.
    destruct (Z.ltb_spec d TIMEOUT_MS); [reflexivity | lia].
  - intros Hhttp Hst. destruct (received rt (url endpoint) t) as [r |] eqn:Hr; [| exact I].
    destruct (probe_received _ _ _ Hr) as [d Hp]. rewrite Hp in Hst.
    destruct (yields (body_read r)) as [data | e]; [| eauto].
    cbn in Hst. injection Hst as Hst. destruct (Hhttp r eq_refl Hst).
Qed.

End ProberProperties.

(** ** Promise.all keeps the input order *)

Section PromiseAll.
Context {A : Type} (undefined : A).

Lemma Promise_all_go_fulfils (vs : list A) order values :
  NoDup order ->
  (forall i, i ∈ order -> (i < length vs)%nat) ->
  length values = length vs ->
  order <> [] ->
  (forall i, i ∉ order -> values !! i = vs !! i) ->
  Promise_all_go (Ok <$> vs) order values (length order) = Some (Ok vs).
Proof.
  intros Hnd. revert values.
  induction Hnd as [| i rest Hi Hnd IH]; intros values Hin Hlen Hne Hfilled;
    [congruence |].
  destruct (lookup_lt_is_Some_2 vs i) as [v Hv]; [apply Hin; left |].
  cbn. rewrite list_lookup_fmap, Hv. cbn. rewrite ?Nat.sub_0_r.
  assert (Hslots : forall j, j ∉ rest -> <[i:=v]> values !! j = vs !! j).
  { intros j Hj. destruct (decide (i = j)) as [<- | Hij].
    - rewrite list_lookup_insert_eq, Hv; [done |].
      rewrite Hlen. apply Hin. left.
    - rewrite list_lookup_insert_ne by done. apply Hfilled.
      intros [-> | ?]%elem_of_cons; done. }
  destruct (decide _) as [Hlast | Hmore].
  - apply nil_length_inv in Hlast. subst rest.
    do 2 f_equal. apply list_eq. intros j. apply Hslots, not_elem_of_nil.
  - apply IH; try done.
    + intros j Hj. apply Hin. by right.
    + by rewrite length_insert.
    + intros ->. done.
Qed.

(** Whatever the order in which fulfilled inputs settle, the aggregate
    fulfils with their values in the order of the inputs. *)
Lemma Promise_all_fulfils (vs : list A) order :
  order ≡ₚ seq 0 (length vs) ->
  Promise_all undefined (Ok <$> vs) order = Some (Ok vs).
Proof.
  intros Hperm. unfold Promise_all.
  destruct vs as [| v vs]; [reflexivity |].
  change (Ok <$> v :: vs) with (Ok v :: (Ok <$> vs)) at 1.
  cbv iota. rewrite length_fmap.
  assert (Hlen : length order = length (v :: vs)) by (by rewrite Hperm, length_seq).
  transitivity (Promise_all_go (Ok <$> v :: vs) order
                  (replicate (length (v :: vs)) undefined) (length order));
    [by rewrite Hlen |].
  apply Promise_all_go_fulfils.
  - rewrite Hperm. apply NoDup_seq.
  - intros i. rewrite Hperm, elem_of_seq. lia.
  - apply length_replicate.
  - intros ->. apply Permutation_nil_l in Hperm. discriminate.
  - intros i. rewrite Hperm, elem_of_seq. intros Hi.
    rewrite (proj1 (lookup_replicate_None _ _ _)), (proj2 (lookup_ge_None _ _)); [done | |]; lia.
Qed.

End PromiseAll.

(** ** The batch check *)

Section Batch.
Context (rt : Runtime).

Lemma outcomes_checkHealth t endpoints :
  map (outcome t) (map (checkHealth rt) endpoints) = Ok <$> map (probe rt t) endpoints.
Proof.
  induction endpoints as [| endpoint endpoints IH]; [reflexivity |].
  cbn. rewrite outcome_checkHealth. f_equal. exact IH.
Qed.

Lemma Promise_all_checkHealth t endpoints order :
  order ≡ₚ seq 0 (length endpoints) ->
  Promise_all JUndefined (map (outcome t) (map (checkHealth rt) endpoints)) order
    = Some (Ok (map (probe rt t) endpoints)).
Proof.
  intros Hperm. rewrite outcomes_checkHealth.
  apply Promise_all_fulfils. by rewrite length_map.
Qed.

(** Where a parked [/check] handler continues once its batch settles:
    it assigns the batch to [lastCheckResults] and answers with it. *)
Lemma settle_handle_check since order :
  order ≡ₚ seq 0 (length ENDPOINTS) ->
  exists t p,
    settle since order (handle_check rt) = Some (t, p) /\
    forall cache,
      run p cache = (batch rt since, Done (Ok (json_response (JArray (batch rt since))))).
Proof.
  intros Hperm. cbn -[ENDPOINTS]. rewrite length_map.
  rewrite decide_True by done.
  rewrite Promise_all_checkHealth by done.
  eexists _, _. split; [reflexivity |]. intros cache. reflexivity.
Qed.

Lemma settle_backgroundHealthCheck since order :
  order ≡ₚ seq 0 (length ENDPOINTS) ->
  exists t p,
    settle since order (backgroundHealthCheck rt) = Some (t, p) /\
    forall cache, run p cache = (batch rt since, Done (Ok tt)).
Proof.
  intros Hperm. cbn -[ENDPOINTS]. rewrite length_map.
  rewrite decide_True by done.
  rewrite Promise_all_checkHealth by done.
  eexists _, _. split; [reflexivity |]. intros cache. reflexivity.
Qed.

(** C1: for every list of endpoints and every order in which their
    probes settle, the batch's [Promise.all] fulfils with one record
    per endpoint, the record at position i being the one of endpoint i;
    this is what the [/check] handler answers with and what the
    background check stores. *)
Theorem batch_in_input_order endpoints t order :
  order ≡ₚ seq 0 (length endpoints) ->
  let records := map (probe rt t) endpoints in
  Promise_all JUndefined (map (outcome t) (map (checkHealth rt) endpoints)) order
    = Some (Ok records) /\
  length records = length endpoints /\
  (forall i endpoint,
      endpoints !! i = Some endpoint ->
      records !! i = Some (probe rt t endpoint) /\
      outcome t (checkHealth rt endpoint) = Ok (probe rt t endpoint)) /\
  (endpoints = ENDPOINTS ->
   (exists t' p, settle t order (handle_check rt) = Some (t', p) /\
      forall cache,
        run p cache = (records, Done (Ok (json_response (JArray records))))) /\
   (exists t' p, settle t order (backgroundHealthCheck rt) = Some (t', p) /\
      forall cache, run p cache = (records, Done (Ok tt)))).
Proof.
  intros Hperm records. subst records. split; [| split; [| split]].
  - by apply Promise_all_checkHealth.
  - apply length_map.
  - intros i endpoint Hi. split; [| apply outcome_checkHealth].
    by rewrite list_lookup_fmap, Hi.
  - intros ->. split.
    + by apply settle_handle_check.
    + by apply settle_backgroundHealthCheck.
Qed.

End Batch.

(** ** The handler, branch by branch *)

Section Handler.
Context (rt : Runtime).

Lemma handler_OPTIONS req :
  method req = "OPTIONS" ->
  handler rt req = mret (mkHttpResponse 200 cors_headers NoBody).
Proof. intros Hm. unfold handler. rewrite Hm. reflexivity. Qed.

Lemma handler_check req :
  method req <> "OPTIONS" -> pathname req = "/check" ->
  handler rt req = handle_check rt.
Proof.
  intros Hm Hp. unfold handler. rewrite Hp.
  destruct (String.eqb_spec (method req) "OPTIONS"); [done | reflexivity].
Qed.

Lemma handler_last_check req :
  method req <> "OPTIONS" -> pathname req = "/last-check" ->
  handler rt req = handle_last_check.
Proof.
  intros Hm Hp. unfold handler. rewrite Hp.
  destruct (String.eqb_spec (method req) "OPTIONS"); [done | reflexivity].
Qed.

Lemma in_range_lookup index :
  Number_geb index (Finite 0) && Number_ltb index (Finite (Z.of_nat (length ENDPOINTS))) = true ->
  is_Some (at_index ENDPOINTS index).
Proof.
  destruct index as [n | negative |]; unfold Number_geb, Number_ltb, at_index;
    [| by destruct negative | done].
  intros [H0 Hn]%andb_prop. apply negb_true_iff, Z.ltb_ge in H0. apply Z.ltb_lt in Hn.
  destruct (Z.leb_spec 0 n); [| lia]. apply lookup_lt_is_Some_2. lia.
Qed.

(** What one call of the handler does before it returns or suspends:
    it leaves the cache alone, and either answers or parks one of the
    two awaiting branches. *)
Lemma handler_turn req cache :
  exists p,
    run (handler rt req) cache = (cache, p) /\
    ((exists r, p = Done r) \/
     forall since, Parked rt (OfRequest req since p)).
Proof.
  unfold handler.
  destruct (String.eqb_spec (method req) "OPTIONS") as [| Hm];
    [eexists; split; [reflexivity | left; eauto] |].
  destruct (String.eqb_spec (pathname req) "/") as [| _];
    [eexists; split; [reflexivity | left; eauto] |].
  destruct (String.eqb_spec (pathname req) "/check") as [Hc | Hc].
  { eexists; split; [reflexivity |]. right. intros since.
    by apply parked_check. }
  destruct (String.eqb_spec (pathname req) "/last-check") as [| _];
    [eexists; split; [reflexivity | left; eauto] |].
  destruct (match_check_index (pathname req)) as [digits |] eqn:Hd;
    [| eexists; split; [reflexivity | left; eauto]].
  cbv zeta.
  destruct (Number_geb (parseInt digits) (Finite 0)
            && Number_ltb (parseInt digits) (Finite (Z.of_nat (length ENDPOINTS))))
    eqn:Hguard; [| eexists; split; [reflexivity | left; eauto]].
  destruct (in_range_lookup _ Hguard) as [endpoint He].
  exists (handle_check_index rt (parseInt digits)). split.
  - unfold handle_check_index. rewrite He. reflexivity.
  - right. intros since. by eapply parked_index.
Qed.

Lemma backgroundHealthCheck_turn cache :
  run (backgroundHealthCheck rt) cache = (cache, backgroundHealthCheck rt).
Proof. reflexivity. Qed.

Lemma settle_handle_check_inv since order t p :
  settle since order (handle_check rt) = Some (t, p) ->
  forall cache,
    run p cache = (batch rt since, Done (Ok (json_response (JArray (batch rt since))))).
Proof.
  cbn -[ENDPOINTS]. rewrite length_map.
  case_decide as Hperm; [| discriminate].
  rewrite Promise_all_checkHealth by done.
  intros [= <- <-] cache. reflexivity.
Qed.

Lemma settle_backgroundHealthCheck_inv since order t p :
  settle since order (backgroundHealthCheck rt) = Some (t, p) ->
  forall cache, run p cache = (batch rt since, Done (Ok tt)).
Proof.
  cbn -[ENDPOINTS]. rewrite length_map.
  case_decide as Hperm; [| discriminate].
  rewrite Promise_all_checkHealth by done.
  intros [= <- <-] cache. reflexivity.
Qed.

Lemma settle_handle_check_index since order index endpoint :
  at_index ENDPOINTS index = Some endpoint ->
  exists t p,
    settle since order (handle_check_index rt index) = Some (t, p) /\
    forall cache,
      run p cache = (cache, Done (Ok (json_response (probe rt since endpoint)))).
Proof.
  intros He. unfold handle_check_index. rewrite He. cbn.
  eexists _, _. split; [reflexivity |]. intros cache.
  rewrite outcome_checkHealth. reflexivity.
Qed.

End Handler.

(** ** The event loop *)

Section Loop.
Context (rt : Runtime).

Lemma advance_done {A} park reply s others t (p : Prog A) cache r :
  run p (lastCheckResults s) = (cache, Done r) ->
  advance park reply s others t p
    = (mkServer cache (healthCheckInterval s) others, reply r).
Proof. unfold advance. intros ->. reflexivity. Qed.

Lemma advance_parks {A} park reply s others t (p p' : Prog A) cache :
  run p (lastCheckResults s) = (cache, p') ->
  (forall r, p' <> Done r) ->
  advance park reply s others t p
    = (mkServer cache (healthCheckInterval s) (others ++ [park t p']), None).
Proof.
  unfold advance. intros -> Hp'. destruct p'; try reflexivity.
  by destruct (Hp' r).
Qed.

Lemma Parked_not_Done req since p :
  Parked rt (OfRequest req since p) -> forall r, p <> Done r.
Proof.
  inversion 1 as [| ? ? digits endpoint _ _ _ He |]; subst; intros r; [discriminate |].
  unfold handle_check_index. rewrite He. discriminate.
Qed.

(** A request's first turn: the cache stays, and the handler answers
    or is parked. *)
Lemma step_Arrives s req t :
  exists p,
    run (handler rt req) (lastCheckResults s) = (lastCheckResults s, p) /\
    ((exists r, p = Done r /\
        step rt s (Arrives req t) = Some (s, Some (Replies req r))) \/
     (Parked rt (OfRequest req t p) /\
        step rt s (Arrives req t)
          = Some (mkServer (lastCheckResults s) (healthCheckInterval s)
                    (suspended s ++ [OfRequest req t p]), None))).
Proof.
  destruct (handler_turn rt req (lastCheckResults s)) as (p & Hrun & [[r ->] | Hparked]).
  - exists (Done r). split; [done |]. left. exists r. split; [done |].
    cbn [step]. erewrite advance_done by done. by destruct s.
  - exists p. split; [done |]. right. split; [done |].
    cbn [step]. erewrite advance_parks; [done | done |].
    apply (Parked_not_Done req t), Hparked.
Qed.

Lemma step_Tick s t s' out :
  step rt s (Tick t) = Some (s', out) ->
  s' = mkServer (lastCheckResults s) (healthCheckInterval s)
         (suspended s ++ [OfTimer t (backgroundHealthCheck rt)]) /\
  out = None.
Proof.
  cbn [step]. destruct (healthCheckInterval s) eqn:Hid; [| discriminate].
  erewrite advance_parks;
    [| apply backgroundHealthCheck_turn | intros r; cbn; discriminate].
  rewrite Hid. intros [= <- <-]. done.
Qed.

(** The settlement of a parked program, by inversion on how it was
    parked. *)
Lemma step_Settles s j order s' out :
  Forall (Parked rt) (suspended s) ->
  step rt s (Settles j order) = Some (s', out) ->
  Settlement rt s j s' out.
Proof.
  intros Hall. cbn [step].
  destruct (suspended s !! j) as [e |] eqn:Hj; [| discriminate].
  assert (He : Parked rt e) by (by eapply Forall_lookup_1).
  inversion He as [req since Hm Hp | req since digits endpoint Hm Hp Hd Hep | since]; subst e.
  - destruct (settle since order (handle_check rt)) as [[t p] |] eqn:Hs; [| discriminate].
    erewrite advance_done by (by eapply settle_handle_check_inv).
    intros [= <- <-]. by apply settlement_check.
  - destruct (settle_handle_check_index rt since order _ _ Hep) as (t & p & -> & Hrun).
    erewrite advance_done by apply Hrun.
    intros [= <- <-]. by eapply settlement_index.
  - destruct (settle since order (backgroundHealthCheck rt)) as [[t p] |] eqn:Hs; [| discriminate].
    erewrite advance_done by (by eapply settle_backgroundHealthCheck_inv).
    intros [= <- <-]. by apply settlement_timer.
Qed.

Lemma Settlement_suspended s j s' out :
  Settlement rt s j s' out -> suspended s' = delete j (suspended s).
Proof. by destruct 1. Qed.

(** Only programs of the three kinds are ever parked. *)
Lemma Reachable_Parked s :
  Reachable rt s -> Forall (Parked rt) (suspended s).
Proof.
  induction 1 as [t id | s ev s' out Hreach IH Hstep].
  - repeat constructor.
  - destruct ev as [req t | t | j order].
    + destruct (step_Arrives s req t) as (p & _ & [(r & _ & Hs) | (Hp & Hs)]);
        rewrite Hs in Hstep; injection Hstep as <- <-; [done |].
      cbn. apply Forall_app. split; [done |]. by constructor.
    + apply step_Tick in Hstep as [-> _]. cbn.
      apply Forall_app. split; [done |]. repeat constructor.
    + apply step_Settles in Hstep; [| done].
      rewrite (Settlement_suspended _ _ _ _ Hstep). by apply Forall_delete.
Qed.

Lemma step_keeps_cache s ev s' out :
  is_settlement ev = false ->
  step rt s ev = Some (s', out) ->
  lastCheckResults s' = lastCheckResults s.
Proof.
  destruct ev as [req t | t | j order]; [| | discriminate]; intros _ Hstep.
  - destruct (step_Arrives s req t) as (p & _ & [(r & _ & Hs) | (_ & Hs)]);
      rewrite Hs in Hstep; by injection Hstep as <- _.
  - by apply step_Tick in Hstep as [-> _].
Qed.

Lemma turns_keep_cache evs s s' :
  forallb (fun ev => negb (is_settlement ev)) evs = true ->
  turns rt s evs = Some s' ->
  lastCheckResults s' = lastCheckResults s.
Proof.
  revert s. induction evs as [| ev evs IH]; intros s Hquiet Hturns; cbn in *.
  - by injection Hturns as <-.
  - apply andb_prop in Hquiet as [Hev Hquiet].
    destruct (step rt s ev) as [[s1 out] |] eqn:Hstep; [| discriminate].
    rewrite (IH s1) by done.
    eapply step_keeps_cache; [| done]. by destruct (is_settlement ev).
Qed.

Lemma step_last_check s m t :
  m <> "OPTIONS" ->
  let req := mkRequest m "/last-check" in
  step rt s (Arrives req t)
    = Some (s, Some (Replies req (Ok (json_response (JArray (lastCheckResults s)))))).
Proof.
  intros Hm req. cbn [step].
  rewrite handler_last_check by done.
  erewrite advance_done by reflexivity. by destruct s.
Qed.

(** C7: a turn of the loop that changes [lastCheckResults] is the
    settlement of a [/check] handler or of a background check, and it
    leaves the whole batch of that one invocation there; the arrival of
    a request changes nothing, nor does the settlement of a request for
    any other path ([/check/<index>] among them; [/last-check] never
    parks). *)
Theorem cache_written_by_batches_only s ev s' out :
  Reachable rt s ->
  step rt s ev = Some (s', out) ->
  (lastCheckResults s' = lastCheckResults s \/
   exists j order since,
     ev = Settles j order /\
     lastCheckResults s' = batch rt since /\
     length (lastCheckResults s') = length ENDPOINTS /\
     ((exists req, suspended s !! j = Some (OfRequest req since (handle_check rt)) /\
                   pathname req = "/check") \/
      suspended s !! j = Some (OfTimer since (backgroundHealthCheck rt)))) /\
  (forall req t, ev = Arrives req t -> lastCheckResults s' = lastCheckResults s) /\
  (forall j order req since p,
      ev = Settles j order ->
      suspended s !! j = Some (OfRequest req since p) ->
      pathname req <> "/check" ->
      lastCheckResults s' = lastCheckResults s).
Proof.
  intros Hreach Hstep. split; [| split].
  - destruct (is_settlement ev) eqn:Hev;
      [| left; by eapply step_keeps_cache].
    destruct ev as [| | j order]; try discriminate.
    apply step_Settles in Hstep; [| by apply Reachable_Parked].
    destruct Hstep as [req since Hj Hm Hp | req since digits endpoint Hj | since Hj];
      [right | by left | right];
      exists j, order, since; (split; [done |]); (split; [done |]);
      (split; [apply length_map |]); eauto.
  - intros req t ->. exact (step_keeps_cache s (Arrives req t) s' out eq_refl Hstep).
  - intros j order req since p -> Hj Hpath.
    apply step_Settles in Hstep; [| by apply Reachable_Parked].
    destruct Hstep as [req' since' Hj' Hm Hp | | since' Hj']; [| done |];
      rewrite Hj in Hj'; by simplify_eq.
Qed.

(** C8: [/last-check] answers at once and changes nothing; the answer
    is status 200, the CORS headers with content type application/json,
    and as body the JSON text of the array held in [lastCheckResults];
    until some batch has settled that array is empty; once the batch of
    a [/check] or of a background check has settled it is that batch;
    and asked twice in a row it answers the same twice. *)
Theorem last_check_serves_cache :
  let req := mkRequest "GET" "/last-check" in
  let answer (records : list Json) :=
    Some (Replies req (Ok (mkHttpResponse 200
      [ ("Access-Control-Allow-Origin", "*");
        ("Access-Control-Allow-Methods", "GET, OPTIONS");
        ("Access-Control-Allow-Headers", "Content-Type");
        ("Content-Type", "application/json") ]
      (Stringify (JArray records))))) in
  (forall s t,
      step rt s (Arrives req t) = Some (s, answer (lastCheckResults s))) /\
  (forall t0 id evs s t,
      forallb (fun ev => negb (is_settlement ev)) evs = true ->
      turns rt (startup rt t0 id) evs = Some s ->
      step rt s (Arrives req t) = Some (s, answer [])) /\
  (forall s j order s' out since t,
      Reachable rt s ->
      step rt s (Settles j order) = Some (s', out) ->
      (exists r p, suspended s !! j = Some (OfRequest r since p) /\
                   pathname r = "/check") \/
      (exists p, suspended s !! j = Some (OfTimer since p)) ->
      step rt s' (Arrives req t) = Some (s', answer (batch rt since))) /\
  (forall s t1 t2 s1 out1 s2 out2,
      step rt s (Arrives req t1) = Some (s1, out1) ->
      step rt s1 (Arrives req t2) = Some (s2, out2) ->
      s1 = s /\ s2 = s /\ out2 = out1).
Proof.
  intros req answer.
  assert (Hserve : forall s t,
             step rt s (Arrives req t) = Some (s, answer (lastCheckResults s))).
  { intros s t. by apply step_last_check. }
  split; [done |]. split; [| split].
  - intros t0 id evs s t Hquiet Hturns.
    rewrite Hserve. by rewrite (turns_keep_cache _ _ _ Hquiet Hturns).
  - intros s j order s' out since t Hreach Hstep Horigin.
    rewrite Hserve.
    enough (lastCheckResults s' = batch rt since) as -> by done.
    apply step_Settles in Hstep; [| by apply Reachable_Parked].
    destruct Hstep as [r' since' Hj | r' since' digits endpoint Hj _ Hp | since' Hj];
      destruct Horigin as [(r & p & Hj' & Hpath) | (p & Hj')];
      rewrite Hj in Hj'; by simplify_eq.
  - intros s t1 t2 s1 out1 s2 out2. rewrite Hserve. intros [= <- <-].
    rewrite Hserve. by intros [= <- <-].
Qed.

Lemma settles_last (s : Server) (e : Suspended) :
  (suspended s ++ [e])%list !! length (suspended s) = Some e /\
  delete (length (suspended s)) (suspended s ++ [e])%list = suspended s.
Proof.
  split; [apply list_lookup_middle; done |].
  rewrite delete_middle. apply app_nil_r.
Qed.

(** C10: the handler looks at the method only to answer OPTIONS; with
    any other method a request for [/check] is handled as a GET is: it
    parks on a batch over all endpoints and, once the batch has
    settled, assigns it to [lastCheckResults] and answers 200 with it. *)
Theorem check_by_any_method m s t :
  m <> "OPTIONS" ->
  let req := mkRequest m "/check" in
  handler rt req = handler rt (mkRequest "GET" "/check") /\
  let parked :=
    mkServer (lastCheckResults s) (healthCheckInterval s)
      (suspended s ++ [OfRequest req t (handle_check rt)]) in
  step rt s (Arrives req t) = Some (parked, None) /\
  forall order,
    order ≡ₚ seq 0 (length ENDPOINTS) ->
    step rt parked (Settles (length (suspended s)) order)
      = Some (mkServer (batch rt t) (healthCheckInterval s) (suspended s),
              Some (Replies req (Ok (json_response (JArray (batch rt t)))))) /\
    http_status (json_response (JArray (batch rt t))) = 200.
Proof.
  intros Hm req.
  assert (Hhandler : handler rt req = handle_check rt) by (by apply handler_check).
  split; [rewrite Hhandler; symmetry; by apply handler_check |].
  intros parked. split.
  - cbn [step]. rewrite Hhandler.
    erewrite advance_parks; [done | reflexivity | intros r; cbn; discriminate].
  - intros order Hperm. split; [| done].
    destruct (settles_last s (OfRequest req t (handle_check rt)))
      as [Hlookup Hdelete].
    cbn [step suspended parked]. rewrite Hlookup.
    destruct (settle_handle_check rt t order Hperm) as (t' & p & -> & Hrun).
    erewrite advance_done by apply Hrun.
    cbn [lastCheckResults healthCheckInterval suspended]. by rewrite Hdelete.
Qed.

End Loop.

(** ** More on the fetcher and the prober *)

Section ProberMore.
Context (rt : Runtime).

(** X1: the timer [fetchWithTimeout] arms is cleared on every path, and no
    other timer is touched; a probe leaves no timer armed. *)
Theorem no_timer_left u timeout s endpoint t :
  (forall id,
      timers (fst (fetchWithTimeout rt u timeout s)) !! id
        = if decide (id = next_timer s) then None else timers s !! id) /\
  timers (fst (checkHealth rt endpoint (launch t))) = ∅.
Proof.
  split.
  - intros id. rewrite fetchWithTimeout_run.
    assert (Hfetched : forall t', timers (fetched s t') !! id
              = if decide (id = next_timer s) then None else timers s !! id).
    { intros t'. cbn. case_decide as Hid.
      - subst id. apply lookup_delete_eq.
      - by apply lookup_delete_ne. }
    destruct (net rt u (now s)) as [d r | d e];
      destruct (d <? timer_delay timeout); apply Hfetched.
  - rewrite checkHealth_run.
    assert (Hfetched : forall t', timers (fetched (launch t) t') = ∅).
    { intros t'. cbn. apply delete_empty. }
    destruct (net rt (url endpoint) (now (launch t))) as [d r | d e];
      destruct (d <? TIMEOUT_MS); cbn zeta;
      try destruct (yields (body_read r)); apply Hfetched.
Qed.

(** X2: [fetchWithTimeout] settles no later than the delay its timer
    runs with after it was called; a response it returns is the
    network's own, arrived before that deadline; an error it throws is
    the transport's own, raised before the deadline, or the abort
    reason, thrown at the deadline.  The delay is [timeout] itself when
    that is a non-negative 32-bit integer, and 0 (the abort wins at
    once) when it is negative. *)
Theorem fetchWithTimeout_bounded u timeout t :
  let p := fetchWithTimeout rt u timeout in
  let delay := timer_delay timeout in
  settled_at t p <= t + delay /\
  (forall r, outcome t p = Ok r ->
     exists d, net rt u t = Responds d r /\ d < delay /\ settled_at t p = t + d) /\
  (forall e, outcome t p = Throw e ->
     (exists d, net rt u t = Fails d e /\ d < delay /\ settled_at t p = t + d) \/
     (e = abort_reason rt /\ settled_at t p = t + delay)) /\
  0 <= delay /\
  (0 <= timeout < 2 ^ 31 -> delay = timeout) /\
  (- 2 ^ 31 <= timeout < 0 -> delay = 0).
Proof.
  intros p delay.
  enough (Hmain :
    settled_at t p <= t + delay /\
    (forall r, outcome t p = Ok r ->
       exists d, net rt u t = Responds d r /\ d < delay /\ settled_at t p = t + d) /\
    (forall e, outcome t p = Throw e ->
       (exists d, net rt u t = Fails d e /\ d < delay /\ settled_at t p = t + d) \/
       (e = abort_reason rt /\ settled_at t p = t + delay))).
  { destruct Hmain as (Hlate & Hok & Hthrow).
    split; [done |]. split; [done |]. split; [done |]. apply timer_delay_cases. }
  subst p delay.
  unfold outcome, settled_at. rewrite fetchWithTimeout_run. cbn [now launch].
  destruct (net rt u t) as [d r | d e];
    destruct (Z.ltb_spec d (timer_delay timeout)); cbn;
    (split; [lia |]); split; intros x Hx; try discriminate; injection Hx as <-; eauto 6.
Qed.

(** X3: a probe is through at most [TIMEOUT_MS] after its launch when it
    received no response; when it received one, the body read comes on
    top, under no deadline. *)
Theorem probe_bounded endpoint t :
  settled_at t (checkHealth rt endpoint)
    <= t + TIMEOUT_MS
       + match received rt (url endpoint) t with
         | Some r => took (body_read r)
         | None => 0
         end.
Proof.
  unfold settled_at, received. rewrite checkHealth_run. cbn [now launch].
  destruct (net rt (url endpoint) t) as [d r | d e];
    destruct (Z.ltb_spec d TIMEOUT_MS); cbn zeta;
    try destruct (yields (body_read r)); cbn; lia.
Qed.

(** X4: every record carries the name and the url of its descriptor and a
    timestamp; so the record at position i of a batch is named after
    the endpoint at position i of the configuration. *)
Theorem record_names_its_endpoint t :
  (forall endpoint,
      field "name" (probe rt t endpoint) = Some (JString (name endpoint)) /\
      field "url" (probe rt t endpoint) = Some (JString (url endpoint)) /\
      exists at_, field "timestamp" (probe rt t endpoint) = Some (JString (toISOString rt at_))) /\
  (forall i endpoint,
      ENDPOINTS !! i = Some endpoint ->
      exists record,
        batch rt t !! i = Some record /\
        field "name" record = Some (JString (name endpoint))).
Proof.
  assert (Hrecord : forall endpoint,
      field "name" (probe rt t endpoint) = Some (JString (name endpoint)) /\
      field "url" (probe rt t endpoint) = Some (JString (url endpoint)) /\
      exists at_, field "timestamp" (probe rt t endpoint) = Some (JString (toISOString rt at_))).
  { intros endpoint. rewrite probe_cases.
    destruct (net rt (url endpoint) t) as [d r | d e];
      destruct (d <? TIMEOUT_MS); try destruct (yields (body_read r));
      cbn; eauto. }
  split; [exact Hrecord |].
  intros i endpoint Hi. exists (probe rt t endpoint). split.
  - unfold batch. by rewrite list_lookup_fmap, Hi.
  - apply Hrecord.
Qed.

(** X5: the latency of a record is the time the fetch took to resolve, the
    body read not counted; the timestamp is taken after the body read. *)
Theorem latency_is_fetch_time endpoint t d r data :
  net rt (url endpoint) t = Responds d r ->
  d < TIMEOUT_MS ->
  yields (body_read r) = Ok data ->
  field "latency" (probe rt t endpoint) = Some (JString (pretty d +:+ "ms")) /\
  field "timestamp" (probe rt t endpoint)
    = Some (JString (toISOString rt (t + d + took (body_read r)))).
Proof.
  intros Hnet Hd Hdata. rewrite probe_cases, Hnet, Hdata.
  destruct (Z.ltb_spec d TIMEOUT_MS); [| lia]. done.
Qed.

(** X6: a response without a content-type header, or with one that does not
    contain application/json, is read as text: the record's response is
    the text as a string, whatever [json()] would have given. *)
Theorem text_unless_json endpoint t r v :
  received rt (url endpoint) t = Some r ->
  headers_get "content-type" (headers r) = None \/
  (exists ct, headers_get "content-type" (headers r) = Some ct /\
              includes ct "application/json" = false) ->
  yields (text r) = Ok v ->
  field "response" (probe rt t endpoint) = Some (JString v) /\
  field "error" (probe rt t endpoint) = None.
Proof.
  intros [d Hp]%probe_received Hct Hv. rewrite Hp.
  assert (Htext : declares_json r = false).
  { unfold declares_json. destruct Hct as [-> | (ct & -> & Hct)]; [reflexivity | exact Hct]. }
  unfold body_read. rewrite Htext. cbn. rewrite Hv. done.
Qed.

End ProberMore.

(** ** Routing *)

Section Routing.
Context (rt : Runtime).

Lemma strip_prefix_Some p s w : strip_prefix p s = Some w <-> s = p +:+ w.
Proof.
  revert s. induction p as [| a p IH]; intros s; cbn.
  - split; [by intros [= ->] | by intros ->].
  - destruct s as [| b s]; [split; discriminate |].
    destruct (Ascii.eqb_spec a b) as [-> | Hab].
    + rewrite IH. split; [by intros -> | by intros [= ->]].
    + split; [discriminate | intros [= ? _]; done].
Qed.

Lemma match_check_index_Some path w :
  match_check_index path = Some w ->
  path = "/check/" +:+ w /\ one_or_more_digits w = true.
Proof.
  unfold match_check_index.
  destruct (strip_prefix "/check/" path) as [digits |] eqn:Hstrip; [| discriminate].
  destruct (one_or_more_digits digits) eqn:Hdigits; [| discriminate].
  intros [= <-]. split; [| done]. by apply strip_prefix_Some.
Qed.

Lemma is_digit_spec c :
  is_digit c =
  bool_decide (c ∈ [ "0"%char; "1"%char; "2"%char; "3"%char; "4"%char;
                     "5"%char; "6"%char; "7"%char; "8"%char; "9"%char ]).
Proof. by destruct c as [[] [] [] [] [] [] [] []]. Qed.

Lemma all_digits_spec w :
  all_digits w = true <->
  Forall (fun c => c ∈ [ "0"%char; "1"%char; "2"%char; "3"%char; "4"%char;
                         "5"%char; "6"%char; "7"%char; "8"%char; "9"%char ])
         (String.list_ascii_of_string w).
Proof.
  induction w as [| c w IH]; cbn.
  - split; [constructor | done].
  - rewrite andb_true_iff, Forall_cons, IH, is_digit_spec, bool_decide_eq_true. done.
Qed.

(** X7: the pattern of the single-endpoint route matches exactly the
    paths made of [/check/] followed by a non-empty string each of whose
    characters is one of 0 1 2 3 4 5 6 7 8 9, and captures that string:
    no sign, no blank, no digit of another script. *)
Theorem match_check_index_spec path w :
  match_check_index path = Some w <->
  path = "/check/" +:+ w /\
  w <> EmptyString /\
  Forall (fun c => c ∈ [ "0"%char; "1"%char; "2"%char; "3"%char; "4"%char;
                         "5"%char; "6"%char; "7"%char; "8"%char; "9"%char ])
         (String.list_ascii_of_string w).
Proof.
  rewrite <- all_digits_spec. split.
  - intros [-> Hdigits]%match_check_index_Some.
    apply andb_prop in Hdigits as [Hall Hne]. split; [done |]. split; [| done].
    intros ->. discriminate Hne.
  - intros (-> & Hne & Hall). unfold match_check_index, one_or_more_digits.
    rewrite (proj2 (strip_prefix_Some "/check/" _ w) eq_refl), Hall.
    by destruct w.
Qed.

Lemma digit_value c :
  is_digit c = true -> 0 <= Z.of_nat (nat_of_ascii c) - 48 <= 9.
Proof.
  unfold is_digit. intros [H1 H2]%andb_prop.
  apply Nat.leb_le in H1, H2. lia.
Qed.

Lemma parseInt_from_lower acc s :
  all_digits s = true -> 0 <= acc -> acc <= parseInt_from acc s.
Proof.
  revert acc. induction s as [| c s IH]; intros acc Hs Hacc; cbn in *; [lia |].
  apply andb_prop in Hs as [Hc Hs]. apply digit_value in Hc.
  etransitivity; [| apply IH; [done | lia]]. lia.
Qed.

Lemma pretty_N_char_value m :
  (m < 10)%N ->
  is_digit (pretty_N_char m) = true /\
  Z.of_nat (nat_of_ascii (pretty_N_char m)) - 48 = Z.of_N m.
Proof.
  intros Hm.
  assert (m = 0 \/ m = 1 \/ m = 2 \/ m = 3 \/ m = 4 \/ m = 5 \/ m = 6 \/ m = 7
          \/ m = 8 \/ m = 9)%N as Hcases by lia.
  repeat (destruct Hcases as [-> | Hcases]; [by split |]). subst m. by split.
Qed.

Lemma pretty_N_go_digits x s :
  all_digits (pretty_N_go x s) = all_digits s.
Proof.
  revert s. induction (N.lt_wf_0 x) as [x _ IH]; intros s.
  assert (x = 0 \/ 0 < x)%N as [-> | Hx] by lia; [by rewrite pretty_N_go_0 |].
  rewrite pretty_N_go_step by done.
  rewrite IH by (by apply N.div_lt). cbn.
  by rewrite (proj1 (pretty_N_char_value (x `mod` 10) ltac:(by apply N.mod_lt))).
Qed.

Lemma pretty_N_go_parse x s :
  exists k, 0 <= k /\
    forall acc,
      parseInt_from acc (pretty_N_go x s) = parseInt_from (acc * 10 ^ k + Z.of_N x) s.
Proof.
  revert s. induction (N.lt_wf_0 x) as [x _ IH]; intros s.
  assert (x = 0 \/ 0 < x)%N as [-> | Hx] by lia.
  - exists 0. split; [done |]. intros acc. rewrite pretty_N_go_0. f_equal. lia.
  - destruct (IH (x `div` 10)%N ltac:(by apply N.div_lt)
                 (String (pretty_N_char (x `mod` 10)) s)) as (k & Hk & Hgo).
    exists (k + 1). split; [lia |]. intros acc.
    rewrite pretty_N_go_step, Hgo by done. cbn [parseInt_from].
    rewrite (proj2 (pretty_N_char_value (x `mod` 10) ltac:(by apply N.mod_lt))).
    f_equal. rewrite Z.pow_add_r, N2Z.inj_mod, N2Z.inj_div by lia.
    change (Z.of_N 10) with 10. pose proof (Z.div_mod (Z.of_N x) 10). lia.
Qed.

Lemma pretty_digits_value (i : Z) :
  0 <= i ->
  one_or_more_digits (pretty i) = true /\ parseInt_from 0 (pretty i) = i.
Proof.
  assert (Hpos : forall x : positive,
             one_or_more_digits (pretty (Z.pos x)) = true /\
             parseInt_from 0 (pretty (Z.pos x)) = Z.pos x).
  { intros x. unfold pretty, pretty_Z, pretty, pretty_positive, pretty, pretty_N.
    rewrite decide_False by done.
    destruct (pretty_N_go_parse (N.pos x) EmptyString) as (k & _ & Hgo).
    assert (Hvalue : parseInt_from 0 (pretty_N_go (N.pos x) EmptyString) = Z.pos x).
    { rewrite Hgo. cbn. lia. }
    split; [| exact Hvalue].
    unfold one_or_more_digits. rewrite pretty_N_go_digits.
    destruct (pretty_N_go (N.pos x) EmptyString) eqn:Hgo'; [| reflexivity].
    cbn in Hvalue. discriminate Hvalue. }
  destruct i as [| x | x]; [by split | intros _; apply Hpos | lia].
Qed.

Lemma pretty_negative (i : Z) : i < 0 -> one_or_more_digits (pretty i) = false.
Proof. destruct i as [| x | x]; [lia | lia | reflexivity]. Qed.

(** X8: the decimal rendering of an index is read back as the double
    nearest to it: the path [/check/<i>] is matched for every i >= 0 and
    for no negative i, and the digits captured are parsed to [fl i],
    which is i itself up to 2^53 and may differ beyond (2^53 + 1 is read
    as 2^53). *)
Theorem decimal_index_round_trip (i : Z) :
  match_check_index ("/check/" +:+ pretty i) = (if 0 <=? i then Some (pretty i) else None) /\
  (0 <= i -> parseInt (pretty i) = fl i) /\
  (0 <= i <= 2 ^ 53 -> parseInt (pretty i) = Finite i) /\
  parseInt (pretty (2 ^ 53 + 1)) = Finite (2 ^ 53).
Proof.
  assert (Hparse : 0 <= i -> parseInt (pretty i) = fl i).
  { intros Hi. unfold parseInt. by rewrite (proj2 (pretty_digits_value i Hi)). }
  split; [| split; [done | split; [| by vm_compute]]].
  - unfold match_check_index.
    rewrite (proj2 (strip_prefix_Some "/check/" _ (pretty i)) eq_refl).
    destruct (Z.leb_spec 0 i) as [Hi | Hi].
    + by rewrite (proj1 (pretty_digits_value i Hi)).
    + by rewrite pretty_negative.
  - intros Hi. rewrite Hparse by lia. apply fl_exact. rewrite Z.abs_eq; lia.
Qed.

End Routing.

(** ** The single-endpoint route *)

Section CheckIndex.
Context (rt : Runtime).




End CheckIndex.


(** ** Answers of the handler *)

Section Answers.
Context (rt : Runtime).

Lemma handler_answer req cache :
  match snd (run (handler rt req) cache) with
  | Done r => well_formed_answer r
  | _ => True
  end.
Proof.
  assert (Hplain : forall status ct b, status = 200 \/ status = 404 ->
             well_formed_answer (Ok (mkHttpResponse status (with_content_type ct) b))).
  { intros status ct b Hstatus. eexists _, _. split; [reflexivity |]. split; [exact Hstatus |].
    reflexivity. }
  unfold handler.
  destruct (String.eqb (method req) "OPTIONS").
  { cbn. eexists _, []. split; [reflexivity |]. split; [by left | by rewrite app_nil_r]. }
  destruct (String.eqb (pathname req) "/"); [apply Hplain; by left |].
  destruct (String.eqb (pathname req) "/check"); [exact I |].
  destruct (String.eqb (pathname req) "/last-check"); [apply Hplain; by left |].
  destruct (match_check_index (pathname req)) as [digits |]; [| apply Hplain; by right].
  cbv zeta.
  destruct (Number_geb (parseInt digits) (Finite 0)
            && Number_ltb (parseInt digits) (Finite (Z.of_nat (length ENDPOINTS))))
    eqn:Hguard; [| apply Hplain; by right].
  destruct (in_range_lookup _ Hguard) as [endpoint He].
  unfold handle_check_index. rewrite He. exact I.
Qed.

(** X9: whatever request is answered, in whatever reachable state, the
    handler has not thrown: the answer is a response with status 200 or
    404 that starts with the CORS headers. *)
Theorem every_answer_well_formed s ev s' req r :
  Reachable rt s ->
  step rt s ev = Some (s', Some (Replies req r)) ->
  well_formed_answer r.
Proof.
  intros Hreach Hstep. destruct ev as [req' t | t | j order].
  - pose proof (handler_answer req' (lastCheckResults s)) as Hanswer.
    destruct (step_Arrives rt s req' t) as (p & Hrun & [(r' & -> & Hs) | (_ & Hs)]);
      rewrite Hs in Hstep; [| discriminate].
    rewrite Hrun in Hanswer. by injection Hstep as _ _ <-.
  - by apply step_Tick in Hstep as [_ [=]].
  - apply step_Settles in Hstep; [| by apply Reachable_Parked].
    inversion Hstep; subst;
      eexists _, _; (split; [reflexivity |]); (split; [by left | reflexivity]).
Qed.

(** X10: a preflight request is answered at once with 200, the CORS headers
    and no body, whatever its path; nothing is probed and nothing
    changes, on [/check] too. *)
Theorem options_preflight s path t :
  let req := mkRequest "OPTIONS" path in
  step rt s (Arrives req t)
    = Some (s, Some (Replies req (Ok (mkHttpResponse 200 cors_headers NoBody)))).
Proof.
  intros req. cbn [step]. rewrite handler_OPTIONS by done.
  erewrite advance_done by reflexivity. by destruct s.
Qed.

(** X11: with a method other than OPTIONS, the root path is answered with the
    dashboard page for the configured endpoints, and a path that is none
    of [/], [/check], [/last-check] and no [/check/<digits>] is answered
    with 404; either way at once and without any change. *)
Theorem static_routes m path s t :
  m <> "OPTIONS" ->
  let req := mkRequest m path in
  (path = "/" ->
   step rt s (Arrives req t)
     = Some (s, Some (Replies req
                        (Ok (mkHttpResponse 200 (with_content_type "text/html; charset=utf-8")
                               (Dashboard ENDPOINTS DEFAULT_REFRESH_INTERVAL)))))) /\
  (path <> "/" -> path <> "/check" -> path <> "/last-check" ->
   (forall w, one_or_more_digits w = true -> path <> "/check/" +:+ w) ->
   step rt s (Arrives req t) = Some (s, Some (Replies req (Ok not_found)))).
Proof.
  intros Hm req. split.
  - intros ->. cbn [step].
    assert (Hhandler : handler rt req
              = mret (mkHttpResponse 200 (with_content_type "text/html; charset=utf-8")
                        (Dashboard ENDPOINTS DEFAULT_REFRESH_INTERVAL))).
    { unfold handler. cbn [method pathname req].
      destruct (String.eqb_spec m "OPTIONS"); [done | reflexivity]. }
    rewrite Hhandler. erewrite advance_done by reflexivity. by destruct s.
  - intros Hroot Hcheck Hlast Hindex. cbn [step].
    assert (Hhandler : handler rt req = mret not_found).
    { unfold handler. cbn [method pathname req].
      destruct (String.eqb_spec m "OPTIONS"); [done |].
      destruct (String.eqb_spec path "/"); [done |].
      destruct (String.eqb_spec path "/check"); [done |].
      destruct (String.eqb_spec path "/last-check"); [done |].
      destruct (match_check_index path) as [w |] eqn:Hw; [| reflexivity].
      apply match_check_index_Some in Hw as [-> Hw]. by destruct (Hindex w). }
    rewrite Hhandler. erewrite advance_done by reflexivity. by destruct s.
Qed.

End Answers.

(** ** Invariants of the event loop *)

Section LoopInvariants.
Context (rt : Runtime).

Lemma probe_shape t endpoint :
  success_shaped (probe rt t endpoint) = negb (failure_shaped (probe rt t endpoint)).
Proof.
  rewrite probe_cases.
  destruct (net rt (url endpoint) t) as [d r | d e];
    destruct (d <? TIMEOUT_MS); try destruct (yields (body_read r)); reflexivity.
Qed.

(** X12: in every reachable state the cache is empty or holds the whole batch
    of one invocation: one record per configured endpoint, in the order
    of the configuration, each named after its endpoint and of one of
    the two shapes; never part of a batch, never records of two batches. *)
Theorem cache_is_one_batch s :
  Reachable rt s ->
  (lastCheckResults s = [] \/ exists t, lastCheckResults s = batch rt t) /\
  (forall i record,
      lastCheckResults s !! i = Some record ->
      length (lastCheckResults s) = length ENDPOINTS /\
      success_shaped record = negb (failure_shaped record) /\
      exists endpoint,
        ENDPOINTS !! i = Some endpoint /\
        field "name" record = Some (JString (name endpoint))).
Proof.
  intros Hreach.
  assert (Hcache : lastCheckResults s = [] \/ exists t, lastCheckResults s = batch rt t).
  { induction Hreach as [t id | s ev s' out Hreach IH Hstep]; [by left |].
    destruct (is_settlement ev) eqn:Hev.
    - destruct ev as [| | j order]; try discriminate.
      apply step_Settles in Hstep; [| by apply Reachable_Parked].
      destruct Hstep; cbn; eauto.
    - by rewrite (step_keeps_cache rt s ev s' out Hev Hstep). }
  split; [exact Hcache |].
  intros i record Hi. destruct Hcache as [Hnil | [t Ht]]; rewrite ?Hnil, ?Ht in *;
    [discriminate |].
  unfold batch in *. rewrite length_map. rewrite list_lookup_fmap in Hi.
  destruct (ENDPOINTS !! i) as [endpoint |] eqn:Hendpoint; [| discriminate].
  injection Hi as <-. split; [done |]. split; [apply probe_shape |].
  exists endpoint. split; [done |]. rewrite probe_cases.
  destruct (net rt (url endpoint) t) as [d r | d e];
    destruct (d <? TIMEOUT_MS); try destruct (yields (body_read r)); reflexivity.
Qed.

Lemma advance_keeps_interval {A} park reply s others t (p : Prog A) :
  healthCheckInterval (fst (advance park reply s others t p)) = healthCheckInterval s.
Proof.
  unfold advance. destruct (run p (lastCheckResults s)) as [cache p'].
  by destruct p'.
Qed.

Lemma step_keeps_interval s ev s' out :
  step rt s ev = Some (s', out) ->
  healthCheckInterval s' = healthCheckInterval s.
Proof.
  assert (Hadv : forall A park reply others t (p : Prog A),
             Some (advance park reply s others t p) = Some (s', out) ->
             healthCheckInterval s' = healthCheckInterval s).
  { intros A park reply others t p [= H]. apply (f_equal fst) in H. cbn in H.
    subst s'. apply advance_keeps_interval. }
  destruct ev as [req t | t | j order]; cbn [step].
  - apply Hadv.
  - destruct (healthCheckInterval s); [apply Hadv | discriminate].
  - destruct (suspended s !! j) as [[req since p | since p] |]; [| | discriminate];
      destruct (settle since order p) as [[t p'] |]; try discriminate; apply Hadv.
Qed.

(** X13: the interval timer set by the top-level code stays set in every
    reachable state, and no turn of the loop changes the variable; so a
    tick always starts a fresh background check, parked behind whatever
    is still waiting, without touching the cache. *)
Theorem background_check_keeps_running s :
  Reachable rt s ->
  is_Some (healthCheckInterval s) /\
  (forall ev s' out,
      step rt s ev = Some (s', out) -> healthCheckInterval s' = healthCheckInterval s) /\
  (forall t,
      step rt s (Tick t)
        = Some (mkServer (lastCheckResults s) (healthCheckInterval s)
                  (suspended s ++ [OfTimer t (backgroundHealthCheck rt)]), None)).
Proof.
  intros Hreach.
  assert (Hset : is_Some (healthCheckInterval s)).
  { induction Hreach as [t id | s ev s' out Hreach IH Hstep]; [by eexists |].
    by rewrite (step_keeps_interval _ _ _ _ Hstep). }
  split; [exact Hset |]. split; [apply step_keeps_interval |].
  intros t. destruct Hset as [id Hid]. cbn [step]. rewrite Hid.
  erewrite advance_parks;
    [| apply backgroundHealthCheck_turn | intros r; cbn; discriminate].
  by rewrite Hid.
Qed.

(** X14: no parked program is stuck: in a reachable state each of them can
    settle, for every order in which its probes settle; it is then
    removed from the parked ones, and when it is a request's handler the
    request is answered with status 200. *)
Theorem parked_programs_settle s j e order :
  Reachable rt s ->
  suspended s !! j = Some e ->
  order ≡ₚ seq 0 (length ENDPOINTS) ->
  exists s' out,
    step rt s (Settles j order) = Some (s', out) /\
    suspended s' = delete j (suspended s) /\
    match e with
    | OfRequest req _ _ =>
        exists resp, out = Some (Replies req (Ok resp)) /\ http_status resp = 200
    | OfTimer _ _ => out = None
    end.
Proof.
  intros Hreach Hj Hperm.
  assert (He : Parked rt e).
  { eapply Forall_lookup_1; [by apply Reachable_Parked | done]. }
  cbn [step]. rewrite Hj.
  inversion He as [req since Hm Hp | req since digits endpoint Hm Hp Hd Hep | since]; subst e.
  - destruct (settle_handle_check rt since order Hperm) as (t & p & -> & Hrun).
    erewrite advance_done by apply Hrun. eexists _, _. split; [done |]. split; [done |].
    by eexists.
  - destruct (settle_handle_check_index rt since order _ _ Hep) as (t & p & -> & Hrun).
    erewrite advance_done by apply Hrun. eexists _, _. split; [done |]. split; [done |].
    by eexists.
  - destruct (settle_backgroundHealthCheck rt since order Hperm) as (t & p & -> & Hrun).
    erewrite advance_done by apply Hrun. eexists _, _. split; [done |]. by split.
Qed.

Lemma step_arrives_check s m t :
  m <> "OPTIONS" ->
  step rt s (Arrives (mkRequest m "/check") t)
    = Some (mkServer (lastCheckResults s) (healthCheckInterval s)
              (suspended s ++ [OfRequest (mkRequest m "/check") t (handle_check rt)]), None).
Proof.
  intros Hm. cbn [step]. rewrite handler_check by done.
  erewrite advance_parks; [done | reflexivity | intros r; cbn; discriminate].
Qed.

Lemma step_settles_check s j req since order :
  suspended s !! j = Some (OfRequest req since (handle_check rt)) ->
  order ≡ₚ seq 0 (length ENDPOINTS) ->
  step rt s (Settles j order)
    = Some (mkServer (batch rt since) (healthCheckInterval s) (delete j (suspended s)),
            Some (Replies req (Ok (json_response (JArray (batch rt since)))))).
Proof.
  intros Hj Hperm. cbn [step]. rewrite Hj.
  destruct (settle_handle_check rt since order Hperm) as (t & p & -> & Hrun).
  by erewrite advance_done by apply Hrun.
Qed.

(** X15: two [/check] requests in flight at once: the cache ends up with the
    batch of the one that settles last, whichever was launched first; a
    batch launched earlier that settles later replaces the later one. *)
Theorem last_settlement_wins s m1 m2 t1 t2 order1 order2 :
  m1 <> "OPTIONS" -> m2 <> "OPTIONS" ->
  order1 ≡ₚ seq 0 (length ENDPOINTS) ->
  order2 ≡ₚ seq 0 (length ENDPOINTS) ->
  let k := length (suspended s) in
  let first := Arrives (mkRequest m1 "/check") t1 in
  let second := Arrives (mkRequest m2 "/check") t2 in
  turns rt s [first; second; Settles (S k) order2; Settles k order1]
    = Some (mkServer (batch rt t1) (healthCheckInterval s) (suspended s)) /\
  turns rt s [first; second; Settles k order1; Settles k order2]
    = Some (mkServer (batch rt t2) (healthCheckInterval s) (suspended s)).
Proof.
  intros Hm1 Hm2 Hperm1 Hperm2 k first second.
  set (e1 := OfRequest (mkRequest m1 "/check") t1 (handle_check rt)).
  set (e2 := OfRequest (mkRequest m2 "/check") t2 (handle_check rt)).
  assert (Hk1 : (suspended s ++ [e1; e2])%list !! k = Some e1).
  { by apply list_lookup_middle. }
  assert (Hk2 : (suspended s ++ [e1; e2])%list !! S k = Some e2).
  { rewrite (lookup_app_r (suspended s)) by (subst k; lia).
    by replace (S k - length (suspended s))%nat with 1%nat by (subst k; lia). }
  assert (Hd1 : delete k (suspended s ++ [e1; e2])%list = (suspended s ++ [e2])%list).
  { by apply delete_middle. }
  assert (Hd2 : delete (S k) (suspended s ++ [e1; e2])%list = (suspended s ++ [e1])%list).
  { change (suspended s ++ [e1; e2])%list with (suspended s ++ [e1] ++ [e2])%list.
    rewrite app_assoc.
    replace (S k) with (length (suspended s ++ [e1])) by (rewrite length_app; cbn; subst k; lia).
    rewrite delete_middle. by rewrite app_nil_r. }
  assert (Hlast : forall e, (suspended s ++ [e])%list !! k = Some e /\
                            delete k (suspended s ++ [e])%list = suspended s).
  { intros e. split; [by apply list_lookup_middle |].
    subst k. rewrite delete_middle. apply app_nil_r. }
  subst first second. cbn [turns].
  rewrite !step_arrives_check by done. cbn [turns].
  cbn [lastCheckResults healthCheckInterval suspended].
  rewrite <- !app_assoc. cbn [app].
  fold e1 e2. split.
  - erewrite step_settles_check; [| cbn [suspended]; exact Hk2 | done].
    cbn [turns suspended healthCheckInterval]. rewrite Hd2.
    erewrite step_settles_check; [| cbn [suspended]; apply Hlast | done].
    cbn [turns suspended healthCheckInterval]. by rewrite (proj2 (Hlast e1)).
  - erewrite step_settles_check; [| cbn [suspended]; exact Hk1 | done].
    cbn [turns suspended healthCheckInterval]. rewrite Hd1.
    erewrite step_settles_check; [| cbn [suspended]; apply Hlast | done].
    cbn [turns suspended healthCheckInterval]. by rewrite (proj2 (Hlast e2)).
Qed.

Lemma Promise_all_go_pending {A} (vs : list A) order values remaining :
  (length order < remaining)%nat ->
  Promise_all_go (Ok <$> vs) order values remaining = None.
Proof.
  revert values remaining.
  induction order as [| i order IH]; intros values remaining Hlt; cbn in *; [done |].
  rewrite list_lookup_fmap. destruct (vs !! i) as [v |]; cbn.
  - destruct (decide _) as [Hzero | _]; [lia |]. apply IH. lia.
  - apply IH. lia.
Qed.

(** X16: as long as fewer probes have settled than there are endpoints, the
    batch is pending: no partial result is ever handed on. *)
Theorem batch_waits_for_all endpoints t order :
  (length order < length endpoints)%nat ->
  Promise_all JUndefined (map (outcome t) (map (checkHealth rt) endpoints)) order = None.
Proof.
  intros Hlt. rewrite outcomes_checkHealth. unfold Promise_all.
  destruct endpoints as [| endpoint endpoints]; [cbn in Hlt; lia |].
  change (Ok <$> map (probe rt t) (endpoint :: endpoints))
    with (Ok (probe rt t endpoint) :: (Ok <$> map (probe rt t) endpoints)) at 1.
  cbv iota. apply Promise_all_go_pending.
  by rewrite length_fmap, length_map.
Qed.

End LoopInvariants.

(** ** The dashboard script *)

Module ScriptFacts.
Import Script.

Lemma filter_other (id : nat) (l : list nat) :
  id ∉ l -> filter (fun i => i <> id) l = l.
Proof.
  induction l as [| i l IH]; intros Hid; [done |].
  apply not_elem_of_cons in Hid as [Hne Hid].
  rewrite filter_cons_True by done. by rewrite IH.
Qed.

Lemma cancelled_timeouts p :
  Loose p -> timeouts (cancelled p) = ∅ /\ intervals (cancelled p) = intervals p.
Proof.
  intros (Hids & _ & _ & Hheld & Honly). unfold cancelled, armed_id.
  destruct (refreshTimeoutId p) as [[| n] |] eqn:Hid.
  - destruct (Hheld 0%nat eq_refl) as [? _]. lia.
  - cbn. split.
    + apply map_eq. intros id. rewrite lookup_empty.
      destruct (decide (id = S n)) as [-> | Hne]; [apply lookup_delete_eq |].
      rewrite lookup_delete_ne by done.
      destruct (timeouts p !! id) as [t |] eqn:Ht; [| done].
      apply Honly in Ht. congruence.
    + apply filter_other. by apply Hheld.
  - split; [| done]. apply map_eq. intros id. rewrite lookup_empty.
    destruct (timeouts p !! id) as [t |] eqn:Ht; [| done].
    apply Honly in Ht. congruence.
Qed.

Lemma same_timers_Loose p q : same_timers p q -> Loose p -> Loose q.
Proof.
  intros (_ & Hi & Hid & _ & Hn & Ht & Hv). unfold Loose.
  by rewrite Hi, Hid, Hn, Ht, Hv.
Qed.

Lemma same_timers_Armed p q : same_timers p q -> Armed p -> Armed q.
Proof.
  intros (He & _ & Hid & Hnext & _ & Ht & _). unfold Armed.
  by rewrite He, Hid, Hnext, Ht.
Qed.

Lemma same_timers_updateNextRefreshDisplay now p :
  same_timers p (updateNextRefreshDisplay now p).
Proof.
  unfold updateNextRefreshDisplay.
  destruct (negb (autoRefreshEnabled p)); [by repeat split |].
  destruct (nextRefreshTime p) as [next |]; [| by repeat split].
  cbv zeta. by destruct (0 <? _); repeat split.
Qed.

Lemma updateNextRefreshDisplay_rest now p :
  results (updateNextRefreshDisplay now p) = results p /\
  in_flight (updateNextRefreshDisplay now p) = in_flight p /\
  requested (updateNextRefreshDisplay now p) = requested p.
Proof.
  unfold updateNextRefreshDisplay.
  destruct (negb (autoRefreshEnabled p)); [done |].
  destruct (nextRefreshTime p) as [next |]; [| done].
  cbv zeta. by destruct (0 <? _).
Qed.

Lemma same_timers_checkHealth p : same_timers p (checkHealth p).
Proof. by repeat split. Qed.

Lemma same_timers_checkHealth_continued engine r p :
  same_timers p (checkHealth_continued engine r (answered p)).
Proof.
  unfold checkHealth_continued.
  destruct r as [[| | | | | items |] | e]; try by repeat split.
  by destruct (cards engine items []); repeat split.
Qed.

(** What [startRefreshTimer] leaves behind when auto refresh is on. *)
Lemma startRefreshTimer_on now now' p :
  autoRefreshEnabled p = true ->
  let q := startRefreshTimer now now' p in
  let intervalMs := Number_mul (Number_mul (refreshInterval p) (Finite 60)) (Finite 1000) in
  autoRefreshEnabled q = true /\
  refreshInterval q = refreshInterval p /\
  refreshTimeoutId q = Some (next_id p) /\
  nextRefreshTime q = new_Date (Number_add (Finite now) intervalMs) /\
  next_id q = S (S (next_id p)) /\
  timeouts q = <[next_id p := now + timer_delay_of intervalMs]> (timeouts (cancelled p)) /\
  intervals q = (intervals (cancelled p) ++ [S (next_id p)])%list /\
  results q = results p /\ in_flight q = in_flight p /\ requested q = requested p.
Proof.
  intros Hon q intervalMs. subst q intervalMs. unfold startRefreshTimer.
  assert (Hsame : autoRefreshEnabled (cancelled p) = true /\
                  refreshInterval (cancelled p) = refreshInterval p /\
                  next_id (cancelled p) = next_id p /\
                  results (cancelled p) = results p /\
                  in_flight (cancelled p) = in_flight p /\
                  requested (cancelled p) = requested p).
  { unfold cancelled. by destruct (armed_id p). }
  destruct Hsame as (Hon' & Hi & Hn & Hr & Hf & Hq). rewrite Hon'. cbn zeta.
  unfold setTimeout.
  cbn -[updateNextRefreshDisplay Z.mul Z.add Number_mul Number_add new_Date timer_delay_of].
  rewrite Hi, Hn.
  match goal with |- context [updateNextRefreshDisplay now' ?p0] =>
    destruct (same_timers_updateNextRefreshDisplay now' p0)
      as (-> & -> & -> & -> & -> & -> & ->);
    destruct (updateNextRefreshDisplay_rest now' p0) as (Hr0 & Hf0 & Hq0);
    assert (Hrest : results (updateNextRefreshDisplay now' p0) = results p /\
                    in_flight (updateNextRefreshDisplay now' p0) = in_flight p /\
                    requested (updateNextRefreshDisplay now' p0) = requested p)
      by (rewrite Hr0, Hf0, Hq0; cbn; by rewrite Hr, Hf, Hq)
  end.
  destruct Hrest as (-> & -> & ->). cbn. done.
Qed.

Lemma startRefreshTimer_off now now' p :
  autoRefreshEnabled p = false -> startRefreshTimer now now' p = cancelled p.
Proof.
  intros Hoff. unfold startRefreshTimer.
  assert (Hoff' : autoRefreshEnabled (cancelled p) = false).
  { unfold cancelled. by destruct (armed_id p). }
  by rewrite Hoff'.
Qed.

Lemma cancelled_Loose p : Loose p -> Loose (cancelled p) /\ timeouts (cancelled p) = ∅.
Proof.
  intros Hp. destruct (cancelled_timeouts p Hp) as [Ht Hv]. split; [| done].
  destruct Hp as (Hids & Hi & Hfresh & Hheld & Honly).
  assert (Hsame : refreshInterval (cancelled p) = refreshInterval p /\
                  next_id (cancelled p) = next_id p /\
                  refreshTimeoutId (cancelled p) = refreshTimeoutId p).
  { unfold cancelled. by destruct (armed_id p). }
  destruct Hsame as (Hi' & Hn' & Hid'). unfold Loose.
  rewrite Hi', Hn', Hid', Hv, Ht. repeat split; try done; try by apply Hheld.
  - by apply Hfresh.
  - by apply Hfresh.
Qed.

Lemma Number_mul_positive a k :
  0 < k -> Number_ltb (Finite 0) a = true ->
  Number_ltb (Finite 0) (Number_mul a (Finite k)) = true.
Proof.
  intros Hk. destruct a as [x | [] |]; intros Ha; try discriminate Ha; cbn [Number_mul].
  - apply Z.ltb_lt in Ha. rewrite fl_sign. apply Z.ltb_lt. lia.
  - rewrite (proj2 (Z.eqb_neq k 0)), (proj2 (Z.ltb_ge k 0)) by lia. done.
Qed.

Lemma intervalMs_positive r :
  Number_ltb (Finite 0) r = true ->
  Number_ltb (Finite 0) (Number_mul (Number_mul r (Finite 60)) (Finite 1000)) = true.
Proof. intros Hr. by do 2 (apply Number_mul_positive; [done |]). Qed.

(** The refresh is armed for no later than the date the countdown runs
    to, when that date is a valid one. *)
Lemma armed_before now intervalMs next :
  Number_ltb (Finite 0) intervalMs = true ->
  new_Date (Number_add (Finite now) intervalMs) = Some next ->
  now + timer_delay_of intervalMs <= next.
Proof.
  destruct intervalMs as [k | [] |]; intros Hk; try discriminate Hk;
    cbn [Number_add timer_delay_of]; [| done].
  apply Z.ltb_lt in Hk. intros ->%new_Date_fl.
  pose proof (timer_delay_le k ltac:(lia)). lia.
Qed.

Lemma intervalMs_exact m :
  0 < m -> m * 60000 <= 2 ^ 53 ->
  Number_mul (Number_mul (Finite m) (Finite 60)) (Finite 1000) = Finite (m * 60000).
Proof.
  intros Hm Hsmall. cbn [Number_mul].
  rewrite (fl_exact (m * 60)) by (rewrite Z.abs_eq; lia). cbn [Number_mul].
  rewrite fl_exact by (rewrite Z.abs_eq; lia). f_equal. lia.
Qed.

Lemma intervalMs_large m :
  2 ^ 53 < m * 60000 ->
  let intervalMs := Number_mul (Number_mul (Finite m) (Finite 60)) (Finite 1000) in
  (exists k, intervalMs = Finite k /\ 2 ^ 53 <= k) \/ intervalMs = Infinity false.
Proof.
  intros Hlarge. cbn [Number_mul]. assert (H53 : 0 < 2 ^ 53) by done.
  destruct (Z.le_gt_cases (m * 60) (2 ^ 53)) as [Hsmall | Hbig].
  - rewrite (fl_exact (m * 60)) by (rewrite Z.abs_eq; lia). cbn [Number_mul].
    apply fl_above. lia.
  - destruct (fl_above (m * 60) Hbig) as [(k & -> & Hk) | ->].
    + cbn [Number_mul]. apply fl_above. lia.
    + by right.
Qed.

Lemma date_invalid now intervalMs :
  (exists k, intervalMs = Finite k /\ 8640000000000000 < now + k) \/
  intervalMs = Infinity false ->
  new_Date (Number_add (Finite now) intervalMs) = None.
Proof.
  intros [(k & -> & Hk) | ->]; [| done]. cbn [Number_add].
  destruct (fl_at_least (now + k) 8640000000000001) as [(m & -> & Hm) | ->];
    [done | lia | | done].
  cbn. destruct (Z.leb_spec (Z.abs m) 8640000000000000); [lia | done].
Qed.

(** A start of the refresh timer on an interval of [m] minutes. *)
Lemma startRefreshTimer_minutes now now' m p :
  autoRefreshEnabled p = true ->
  refreshInterval p = Finite m -> 0 < m ->
  let q := startRefreshTimer now now' p in
  (m * 60000 < 2 ^ 31 ->
   timeouts q = <[next_id p := now + m * 60000]> (timeouts (cancelled p))) /\
  (2 ^ 31 <= m * 60000 < 2 ^ 32 ->
   timeouts q = <[next_id p := now]> (timeouts (cancelled p))) /\
  (0 <= now -> now + m * 60000 <= 8640000000000000 ->
   nextRefreshTime q = Some (now + m * 60000)) /\
  (0 <= now -> 8640000000000000 < now + m * 60000 -> nextRefreshTime q = None).
Proof.
  intros Hon Hm Hpos q.
  destruct (startRefreshTimer_on now now' p Hon) as (_ & _ & _ & Hnext & _ & Ht & _).
  fold q in Hnext, Ht. rewrite Hm in Hnext, Ht.
  assert (H53 : 2 ^ 53 = 9007199254740992) by done.
  assert (H31 : 2 ^ 31 = 2147483648) by done.
  assert (H32 : 2 ^ 32 = 4294967296) by done.
  split; [| split; [| split]].
  - intros Hsmall. rewrite Ht, intervalMs_exact by lia. cbn [timer_delay_of].
    by rewrite (proj1 (proj2 (timer_delay_cases (m * 60000)))) by lia.
  - intros Hwrap. rewrite Ht, intervalMs_exact by lia. cbn [timer_delay_of].
    unfold timer_delay, long.
    replace ((m * 60000 + 2 ^ 31) `mod` 2 ^ 32) with (m * 60000 - 2 ^ 31)
      by (apply Z.mod_unique with (q := 1); lia).
    do 2 f_equal. lia.
  - intros Hnow Hvalid. rewrite Hnext, intervalMs_exact by lia. cbn [Number_add].
    rewrite fl_exact by (rewrite Z.abs_eq; lia). cbn [new_Date].
    by rewrite (proj2 (Z.leb_le _ _)) by (rewrite Z.abs_eq; lia).
  - intros Hnow Hinvalid. rewrite Hnext. apply date_invalid.
    destruct (Z.le_gt_cases (m * 60000) (2 ^ 53)) as [Hsmall | Hlarge].
    + left. exists (m * 60000). split; [by apply intervalMs_exact | done].
    + destruct (intervalMs_large m Hlarge) as [(k & -> & Hk) | ->]; [left | by right].
      exists k. split; [done | lia].
Qed.

(** The countdown text a start of the refresh timer leaves. *)
Lemma startRefreshTimer_text now now' p :
  autoRefreshEnabled p = true ->
  let q := startRefreshTimer now now' p in
  next_refresh q =
    match nextRefreshTime q with
    | Some next =>
        let timeLeft := (next - now' + 500) / 1000 in
        if 0 <? timeLeft then
          "(下次刷新: " +:+ pretty (timeLeft / 60) +:+ "分"
            +:+ pretty (Z.rem timeLeft 60) +:+ "秒后)"
        else next_refresh p
    | None => next_refresh p
    end.
Proof.
  intros Hon q.
  destruct (startRefreshTimer_on now now' p Hon) as (_ & _ & _ & Hnext & _).
  fold q in Hnext. rewrite Hnext. subst q. unfold startRefreshTimer.
  assert (Hsame : autoRefreshEnabled (cancelled p) = true /\
                  refreshInterval (cancelled p) = refreshInterval p /\
                  next_refresh (cancelled p) = next_refresh p).
  { unfold cancelled. by destruct (armed_id p). }
  destruct Hsame as (Hon' & Hi & Htext). rewrite Hon'. cbv zeta.
  unfold setTimeout, setInterval, updateNextRefreshDisplay.
  cbn [snd autoRefreshEnabled nextRefreshTime next_refresh set_refreshTimeoutId
       set_nextRefreshTime set_next_refresh].
  rewrite Hon', Hi. cbn [negb].
  destruct (new_Date _) as [next |]; [| exact Htext].
  cbv zeta. destruct (0 <? _); [reflexivity | exact Htext].
Qed.

Lemma startRefreshTimer_tidy now now' p :
  Loose p -> Loose (startRefreshTimer now now' p) /\ Armed (startRefreshTimer now now' p).
Proof.
  intros Hp. destruct (cancelled_Loose p Hp) as [Hc Hempty].
  destruct (cancelled_timeouts p Hp) as [_ Hv].
  destruct (autoRefreshEnabled p) eqn:Hon.
  - destruct (startRefreshTimer_on now now' p Hon)
      as (He & Hi & Hid & Hnext & Hn & Ht & Hvs & _).
    rewrite Hempty, insert_empty in Ht. rewrite Hv in Hvs.
    destruct Hp as (Hids & Hpos & Hfresh & Hheld & Honly). split.
    + unfold Loose. rewrite Hi, Hid, Hn, Ht, Hvs.
      split; [lia |]. split; [exact Hpos |]. repeat split; try lia.
      * apply elem_of_app in H as [H | ->%list_elem_of_singleton]; [apply Hfresh in H |]; lia.
      * apply elem_of_app in H as [H | ->%list_elem_of_singleton]; [apply Hfresh in H |]; lia.
      * injection H as <-. lia.
      * injection H as <-. lia.
      * injection H as <-. intros [H | H%list_elem_of_singleton]%elem_of_app;
          [apply Hfresh in H |]; lia.
      * intros id t [<- _]%lookup_singleton_Some. done.
    + unfold Armed. rewrite He. eexists _, _. split; [exact Hid |]. split; [exact Ht |].
      intros next Hdate. rewrite Hnext in Hdate.
      eapply armed_before; [| exact Hdate]. by apply intervalMs_positive.
  - rewrite (startRefreshTimer_off now now' p Hon). split; [done |].
    unfold Armed.
    assert (Hoff' : autoRefreshEnabled (cancelled p) = false).
    { unfold cancelled. by destruct (armed_id p). }
    by rewrite Hoff'.
Qed.

Lemma initial_Loose refresh : 0 < refresh -> Loose (initial refresh).
Proof.
  intros Hpos. unfold Loose, initial.
  cbn [next_id refreshInterval intervals refreshTimeoutId timeouts].
  split; [lia |]. split; [rewrite fl_sign; by apply Z.ltb_lt |].
  split; [intros id Hid; by apply elem_of_nil in Hid |].
  split; [discriminate |].
  intros id t Ht. by rewrite lookup_empty in Ht.
Qed.

Lemma set_refreshInterval_Loose v p :
  Loose p -> Number_ltb (Finite 0) v = true -> Loose (set_refreshInterval v p).
Proof.
  intros (Hids & _ & Hfresh & Hheld & Honly) Hv. unfold Loose. cbn.
  split; [done |]. split; [done |]. split; [done |]. by split.
Qed.

Lemma fired_Loose id p :
  Loose p ->
  Loose (mkPage (autoRefreshEnabled p) (refreshInterval p) (refreshTimeoutId p)
           (nextRefreshTime p) (next_refresh p) (results p) (next_id p)
           (delete id (timeouts p)) (intervals p) (in_flight p) (requested p)).
Proof.
  intros (Hids & Hpos & Hfresh & Hheld & Honly). unfold Loose. cbn.
  split; [done |]. split; [done |]. split; [done |]. split; [done |].
  intros id' t' [_ Hid']%lookup_delete_Some. by eapply Honly.
Qed.

Lemma Reachable_tidy engine p : Reachable engine p -> Loose p /\ Armed p.
Proof.
  induction 1 as [now now' | p now now' ev p' Hreach [Hloose Harmed] Hreact].
  - apply startRefreshTimer_tidy.
    eapply same_timers_Loose; [apply same_timers_checkHealth |].
    by apply initial_Loose.
  - destruct ev as [| checked | value | id | id | r];
      cbn [react autoRefreshEnabled set_refreshInterval set_autoRefreshEnabled] in Hreact.
    + injection Hreact as <-.
      split; [eapply same_timers_Loose | eapply same_timers_Armed];
        eauto using same_timers_checkHealth.
    + assert (Hset : Loose (set_autoRefreshEnabled checked p)) by exact Hloose.
      destruct checked; injection Hreact as <-.
      * by apply startRefreshTimer_tidy.
      * destruct (cancelled_Loose _ Hset) as [Hc Hempty]. split; [exact Hc |].
        unfold Armed. cbn.
        assert (Hoff : autoRefreshEnabled (cancelled (set_autoRefreshEnabled false p)) = false).
        { unfold cancelled. by destruct (armed_id _). }
        by rewrite Hoff.
    + set (v := match value with Some v => fl v | None => NaN end) in *.
      destruct (Number_ltb (Finite 0) v) eqn:Hv; [| injection Hreact as <-; by split].
      assert (Hset : Loose (set_refreshInterval v p))
        by (by apply set_refreshInterval_Loose).
      destruct (autoRefreshEnabled p) eqn:Hon; injection Hreact as <-.
      * by apply startRefreshTimer_tidy.
      * split; [exact Hset |]. unfold Armed in *. cbn. by rewrite Hon in *.
    + destruct (timeouts p !! id) as [t |] eqn:Ht; [| discriminate].
      injection Hreact as <-. apply startRefreshTimer_tidy.
      eapply same_timers_Loose; [apply same_timers_checkHealth |].
      by apply fired_Loose.
    + destruct (decide (id ∈ intervals p)); [| discriminate]. injection Hreact as <-.
      split; [eapply same_timers_Loose | eapply same_timers_Armed];
        eauto using same_timers_updateNextRefreshDisplay.
    + destruct (in_flight p); [discriminate |]. injection Hreact as <-.
      assert (Hanswered : same_timers p (answered p)) by (by repeat split).
      pose proof (same_timers_checkHealth_continued engine r p) as Hsame.
      split; [eapply same_timers_Loose | eapply same_timers_Armed]; eauto.
Qed.

(** X17: on every page the script can reach: with auto refresh on, exactly
    one refresh is armed, under the id the script holds, and for no
    later than the date the countdown runs to when that date is a valid
    one; with auto refresh off, none is armed, so no refresh fires; and
    the interval is a number above 0. *)
Theorem one_refresh_armed engine p :
  Reachable engine p ->
  Number_ltb (Finite 0) (refreshInterval p) = true /\
  (if autoRefreshEnabled p then
     exists id t,
       refreshTimeoutId p = Some id /\
       timeouts p = {[id := t]} /\
       forall next, nextRefreshTime p = Some next -> t <= next
   else
     timeouts p = ∅ /\
     forall now now' id, react engine now now' (TimeoutFires id) p = None).
Proof.
  intros [(_ & Hpos & _) Harmed]%Reachable_tidy. split; [exact Hpos |].
  unfold Armed in Harmed. destruct (autoRefreshEnabled p); [exact Harmed |].
  split; [exact Harmed |]. intros now now' id. cbn. by rewrite Harmed, lookup_empty.
Qed.



(** X19: the countdown: with auto refresh on and at least half a second to
    go, the text gives the time left, rounded to the second, as minutes
    and seconds below 60; with less to go the text is left as it was;
    with auto refresh off it is cleared. *)
Theorem countdown_text now p :
  (autoRefreshEnabled p = false ->
   next_refresh (updateNextRefreshDisplay now p) = EmptyString) /\
  (forall next,
      autoRefreshEnabled p = true -> nextRefreshTime p = Some next ->
      (500 <= next - now ->
       exists minutes seconds,
         next_refresh (updateNextRefreshDisplay now p)
           = "(下次刷新: " +:+ pretty minutes +:+ "分" +:+ pretty seconds +:+ "秒后)" /\
         0 <= minutes /\ 0 <= seconds < 60 /\
         (60 * minutes + seconds) * 1000 - 500 <= next - now
           < (60 * minutes + seconds) * 1000 + 500) /\
      (next - now < 500 -> updateNextRefreshDisplay now p = p)).
Proof.
  unfold updateNextRefreshDisplay. split.
  - by intros ->.
  - intros next -> ->. cbn [negb]. cbv zeta.
    set (timeLeft := (next - now + 500) `div` 1000).
    pose proof (Z.div_mod (next - now + 500) 1000 ltac:(lia)) as Hdiv.
    pose proof (Z.mod_pos_bound (next - now + 500) 1000 ltac:(lia)) as Hmod.
    fold timeLeft in Hdiv. split.
    + intros Hleft. assert (0 < timeLeft) as Hpos by lia.
      destruct (Z.ltb_spec 0 timeLeft); [| lia].
      exists (timeLeft `div` 60), (timeLeft `rem` 60). split; [reflexivity |].
      rewrite Z.rem_mod_nonneg by lia.
      pose proof (Z.div_mod timeLeft 60 ltac:(lia)).
      pose proof (Z.mod_pos_bound timeLeft 60 ltac:(lia)).
      assert (0 <= timeLeft `div` 60) by (apply Z.div_pos; lia).
      lia.
    + intros Hleft. destruct (Z.ltb_spec 0 timeLeft); [lia | reflexivity].
Qed.

(** X20: a start of the refresh timer with auto refresh on, on an interval
    of [m] minutes, holds the new timer's id.  While [m] minutes from
    now is a date the engine can hold (within 8.64e15 ms of the epoch),
    the countdown runs to it and, the two clock readings being less
    than half a second apart, reads [m] minutes and 0 seconds; beyond,
    the date is invalid and the text is left as it was.  While the
    milliseconds fit a signed 32-bit integer (at most 35791 minutes),
    the refresh is armed for [m] minutes from now; from 2^31 to below
    2^32 milliseconds the delay wraps to a negative number and the
    refresh is armed for now. *)
Theorem restart_counts_whole_interval now now' m p :
  autoRefreshEnabled p = true ->
  refreshInterval p = Finite m -> 0 < m ->
  0 <= now -> now <= now' < now + 500 ->
  let q := startRefreshTimer now now' p in
  refreshTimeoutId q = Some (next_id p) /\
  (now + m * 60000 <= 8640000000000000 ->
   nextRefreshTime q = Some (now + m * 60000) /\
   next_refresh q = "(下次刷新: " +:+ pretty m +:+ "分" +:+ "0" +:+ "秒后)") /\
  (8640000000000000 < now + m * 60000 ->
   nextRefreshTime q = None /\ next_refresh q = next_refresh p) /\
  (m * 60000 < 2 ^ 31 -> timeouts q !! next_id p = Some (now + m * 60000)) /\
  (2 ^ 31 <= m * 60000 < 2 ^ 32 -> timeouts q !! next_id p = Some now).
Proof.
  intros Hon Hm Hpos Hnow Hclock q.
  destruct (startRefreshTimer_on now now' p Hon) as (_ & _ & Hid & _).
  destruct (startRefreshTimer_minutes now now' m p Hon Hm Hpos)
    as (Hsmall & Hwrap & Hvalid & Hinvalid).
  pose proof (startRefreshTimer_text now now' p Hon) as Htext.
  fold q in Hid, Hsmall, Hwrap, Hvalid, Hinvalid, Htext.
  split; [exact Hid |]. split; [| split; [| split]].
  - intros Hin. specialize (Hvalid Hnow Hin). split; [exact Hvalid |].
    rewrite Htext, Hvalid. cbv zeta.
    assert (Hleft : (now + m * 60000 - now' + 500) `div` 1000 = 60 * m).
    { symmetry. apply Z.div_unique with (r := now + 500 - now'); lia. }
    rewrite Hleft.
    destruct (Z.ltb_spec 0 (60 * m)); [| lia].
    replace ((60 * m) `div` 60) with m by (apply Z.div_unique with (r := 0); lia).
    replace ((60 * m) `rem` 60) with 0
      by (rewrite Z.rem_mod_nonneg by lia; apply Z.mod_unique with (q := m); lia).
    reflexivity.
  - intros Hout. specialize (Hinvalid Hnow Hout). split; [exact Hinvalid |].
    by rewrite Htext, Hinvalid.
  - intros Hfits. rewrite (Hsmall Hfits). apply lookup_insert_eq.
  - intros Hwraps. rewrite (Hwrap Hwraps). apply lookup_insert_eq.
Qed.

(** X21: an interval field in which no integer above 0 is read is
    ignored; an integer [v] above 0 becomes the new interval, as the
    double nearest to it; with auto refresh off nothing else changes;
    with auto refresh on the refresh is armed anew, alone, under a fresh
    id and for no earlier than now: for [v] minutes from now while the
    milliseconds fit a signed 32-bit integer, and the countdown runs to
    [v] minutes from now while that is a date the engine can hold, and
    to no date beyond. *)
Theorem change_of_interval engine now now' value p :
  Reachable engine p ->
  match value with
  | Some v =>
      if 0 <? v then
        exists p',
          react engine now now' (ChangeInterval value) p = Some p' /\
          refreshInterval p' = fl v /\
          (autoRefreshEnabled p = false -> p' = set_refreshInterval (fl v) p) /\
          (autoRefreshEnabled p = true ->
           refreshTimeoutId p' = Some (next_id p) /\
           (exists t, timeouts p' = {[next_id p := t]} /\ now <= t) /\
           (v * 60000 < 2 ^ 31 -> timeouts p' = {[next_id p := now + v * 60000]}) /\
           (0 <= now -> now + v * 60000 <= 8640000000000000 ->
            nextRefreshTime p' = Some (now + v * 60000)) /\
           (0 <= now -> 8640000000000000 < now + v * 60000 ->
            nextRefreshTime p' = None))
      else react engine now now' (ChangeInterval value) p = Some p
  | None => react engine now now' (ChangeInterval value) p = Some p
  end.
Proof.
  intros [Hloose _]%Reachable_tidy. destruct value as [v |]; [| reflexivity].
  cbn [react]. rewrite fl_sign.
  destruct (Z.ltb_spec 0 v) as [Hv |]; [| reflexivity].
  cbn [autoRefreshEnabled set_refreshInterval].
  assert (Hpos : Number_ltb (Finite 0) (fl v) = true)
    by (rewrite fl_sign; by apply Z.ltb_lt).
  assert (Hset : Loose (set_refreshInterval (fl v) p))
    by (by apply set_refreshInterval_Loose).
  destruct (autoRefreshEnabled p) eqn:Hon.
  2: { eexists. split; [reflexivity |]. split; [reflexivity |]. by split. }
  eexists. split; [reflexivity |].
  set (p0 := set_refreshInterval (fl v) p).
  assert (Hon0 : autoRefreshEnabled p0 = true) by exact Hon.
  destruct (startRefreshTimer_on now now' p0 Hon0) as (_ & Hi & Hid & Hnext & _ & Ht & _).
  destruct (cancelled_timeouts p0 Hset) as [Hempty _].
  rewrite Hempty, insert_empty in Ht.
  assert (H53 : 2 ^ 53 = 9007199254740992) by done.
  assert (H31 : 2 ^ 31 = 2147483648) by done.
  split; [exact Hi |]. split; [discriminate |]. intros _.
  split; [exact Hid |]. split; [| split; [| split]].
  - eexists. split; [exact Ht |].
    assert (0 <= timer_delay_of
                   (Number_mul (Number_mul (refreshInterval p0) (Finite 60)) (Finite 1000))).
    { destruct (Number_mul _ _) as [k | |]; cbn [timer_delay_of]; [| done | done].
      apply timer_delay_cases. }
    lia.
  - intros Hfits.
    assert (Hexact : refreshInterval p0 = Finite v).
    { cbn [p0 refreshInterval set_refreshInterval]. apply fl_exact. rewrite Z.abs_eq; lia. }
    destruct (startRefreshTimer_minutes now now' v p0 Hon0 Hexact Hv) as (Hsmall & _).
    rewrite (Hsmall Hfits), Hempty. apply insert_empty.
  - intros Hnow Hvalid.
    assert (Hexact : refreshInterval p0 = Finite v).
    { cbn [p0 refreshInterval set_refreshInterval]. apply fl_exact. rewrite Z.abs_eq; lia. }
    destruct (startRefreshTimer_minutes now now' v p0 Hon0 Hexact Hv) as (_ & _ & Hdate & _).
    by apply Hdate.
  - intros Hnow Hinvalid.
    destruct (Z.le_gt_cases v (2 ^ 53)) as [Hsmall | Hlarge].
    + assert (Hexact : refreshInterval p0 = Finite v).
      { cbn [p0 refreshInterval set_refreshInterval]. apply fl_exact. rewrite Z.abs_eq; lia. }
      destruct (startRefreshTimer_minutes now now' v p0 Hon0 Hexact Hv) as (_ & _ & _ & Hdate).
      by apply Hdate.
    + destruct (fl_above v Hlarge) as [(k & Hk & Hbig) | Hinf].
      * assert (Hexact : refreshInterval p0 = Finite k) by exact Hk.
        destruct (startRefreshTimer_minutes now now' k p0 Hon0 Hexact ltac:(lia))
          as (_ & _ & _ & Hdate).
        apply Hdate; lia.
      * rewrite Hnext. cbn [p0 refreshInterval set_refreshInterval]. by rewrite Hinf.
Qed.

(** X22: a request for [/check] is sent by a click on the refresh button and
    by a refresh that fires, one each, and by nothing else; so with auto
    refresh off only clicks send requests. *)
Theorem requests_sent engine p now now' ev p' :
  Reachable engine p ->
  react engine now now' ev p = Some p' ->
  requested p' = (requested p + match ev with
                                | Click | TimeoutFires _ => 1
                                | _ => 0
                                end)%nat /\
  (autoRefreshEnabled p = false -> forall id, ev <> TimeoutFires id).
Proof.
  intros [Hloose Harmed]%Reachable_tidy Hreact. split.
  - assert (Hstart : forall q, requested (startRefreshTimer now now' q) = requested q).
    { intros q. destruct (autoRefreshEnabled q) eqn:Hon.
      - by destruct (startRefreshTimer_on now now' q Hon) as (_ & _ & _ & _ & _ & _ & _ & _ & _ & ->).
      - rewrite (startRefreshTimer_off now now' q Hon). unfold cancelled.
        by destruct (armed_id q). }
    destruct ev as [| checked | value | id | id | r];
      cbn [react autoRefreshEnabled set_refreshInterval set_autoRefreshEnabled] in Hreact.
    + injection Hreact as <-. cbn. lia.
    + destruct checked; injection Hreact as <-; [rewrite Hstart; cbn; lia |].
      cbn. unfold cancelled. destruct (armed_id _); cbn; lia.
    + destruct (Number_ltb (Finite 0) _); [| injection Hreact as <-; lia].
      destruct (autoRefreshEnabled p); injection Hreact as <-;
        [rewrite Hstart |]; cbn; lia.
    + destruct (timeouts p !! id); [| discriminate]. injection Hreact as <-.
      unfold refresh. rewrite Hstart. cbn. lia.
    + destruct (decide (id ∈ intervals p)); [| discriminate]. injection Hreact as <-.
      destruct (updateNextRefreshDisplay_rest now p) as (_ & _ & ->). lia.
    + destruct (in_flight p); [discriminate |]. injection Hreact as <-.
      unfold checkHealth_continued.
      destruct r as [[| | | | | items |] | e]; try (cbn; lia).
      destruct (cards engine items []); cbn; lia.
  - intros Hoff id ->. cbn in Hreact. unfold Armed in Harmed.
    rewrite Hoff in Harmed. by rewrite Harmed, lookup_empty in Hreact.
Qed.

Lemma cards_all engine items nodes :
  Forall (fun item => exists node, card engine item = Ok node) items ->
  exists added,
    cards engine items nodes = Ok (nodes ++ added)%list /\
    Forall2 (fun item node => card engine item = Ok node) items added.
Proof.
  intros Hall. revert nodes.
  induction Hall as [| item items [node Hnode] _ IH]; intros nodes; cbn.
  - exists (@nil Node). split; [by rewrite app_nil_r | constructor].
  - rewrite Hnode. destruct (IH (nodes ++ [node])%list) as (added & -> & Hadded).
    exists (node :: added). rewrite <- app_assoc. split; [done |]. by constructor.
Qed.

(** The card of a record the prober made: its class tells healthy from
    unhealthy as the record does; it has the latency line exactly for a
    success-shaped record, the error line exactly for an error that is
    not the empty string, and the response block exactly for a response
    that is truthy (not null, false, 0 or an empty string). *)
Lemma card_of_probe engine rt t endpoint :
  let record := probe rt t endpoint in
  exists (healthy : bool) html,
    card engine record
      = Ok (CardDiv (if healthy then "card healthy" else "card unhealthy") html) /\
    field "healthy" record = Some (JBool healthy) /\
    has_lit ("<p class=" +:+ dq +:+ "latency" +:+ dq +:+ ">延迟: ") html
      = success_shaped record /\
    has_lit "<p>错误: " html
      = match field "error" record with
        | Some (JString m) => negb (String.eqb m EmptyString)
        | _ => false
        end /\
    has_lit "<pre>" html
      = match field "response" record with
        | Some v => truthy v
        | None => false
        end.
Proof.
  intros record. subst record. rewrite probe_cases.
  assert (Hok : forall r d data at_,
    let record := ok_record rt endpoint r d data at_ in
    exists (healthy : bool) html,
      card engine record
        = Ok (CardDiv (if healthy then "card healthy" else "card unhealthy") html) /\
      field "healthy" record = Some (JBool healthy) /\
      has_lit ("<p class=" +:+ dq +:+ "latency" +:+ dq +:+ ">延迟: ") html
        = success_shaped record /\
      has_lit "<p>错误: " html
        = match field "error" record with
          | Some (JString m) => negb (String.eqb m EmptyString)
          | _ => false
          end /\
      has_lit "<pre>" html
        = match field "response" record with
          | Some v => truthy v
          | None => false
          end).
  { intros r d data at_. unfold ok_record. generalize (pretty d). intros latency.
    exists ((200 <=? status r) && (status r <? 300)).
    assert (Hlatency : truthy (JString (latency +:+ "ms")) = true) by (by destruct latency).
    unfold card, prop. cbn [field assoc String.eqb Ascii.eqb Bool.eqb andb].
    rewrite Hlatency. cbn [truthy].
    destruct ((200 <=? status r) && (status r <? 300)), (truthy data) eqn:Hdata;
      eexists; (split; [reflexivity |]); (split; [reflexivity |]);
      cbn; rewrite ?Hdata; done. }
  assert (Hfailed : forall e at_,
    let record := failed_record rt endpoint e at_ in
    exists (healthy : bool) html,
      card engine record
        = Ok (CardDiv (if healthy then "card healthy" else "card unhealthy") html) /\
      field "healthy" record = Some (JBool healthy) /\
      has_lit ("<p class=" +:+ dq +:+ "latency" +:+ dq +:+ ">延迟: ") html
        = success_shaped record /\
      has_lit "<p>错误: " html
        = match field "error" record with
          | Some (JString m) => negb (String.eqb m EmptyString)
          | _ => false
          end /\
      has_lit "<pre>" html
        = match field "response" record with
          | Some v => truthy v
          | None => false
          end).
  { intros e at_. unfold failed_record. exists false.
    unfold card, prop. cbn [field assoc String.eqb Ascii.eqb Bool.eqb andb truthy].
    destruct (String.eqb (message e) EmptyString) eqn:Hmessage;
      eexists; (split; [reflexivity |]); (split; [reflexivity |]);
      cbn; rewrite ?Hmessage; done. }
  destruct (net rt (url endpoint) t) as [d r | d e];
    destruct (d <? TIMEOUT_MS); try destruct (yields (body_read r)); auto.
Qed.

(** X23: given the answer of [/check], the page shows one card per configured
    endpoint, in the order of the configuration, and no failure message:
    each card is classed healthy or unhealthy as its record says, shows
    the latency of a successful probe, the error of a failed one unless
    the message is empty, and the response of a successful one unless
    the response is falsy. *)
Theorem batch_rendered engine rt t p :
  let p' := checkHealth_continued engine (Ok (JArray (batch rt t))) p in
  length (results p') = length ENDPOINTS /\
  forall i endpoint,
    ENDPOINTS !! i = Some endpoint ->
    let record := probe rt t endpoint in
    exists (healthy : bool) html,
      results p' !! i
        = Some (CardDiv (if healthy then "card healthy" else "card unhealthy") html) /\
      field "healthy" record = Some (JBool healthy) /\
      has_lit ("<p class=" +:+ dq +:+ "latency" +:+ dq +:+ ">延迟: ") html
        = success_shaped record /\
      has_lit "<p>错误: " html
        = match field "error" record with
          | Some (JString m) => negb (String.eqb m EmptyString)
          | _ => false
          end /\
      has_lit "<pre>" html
        = match field "response" record with
          | Some v => truthy v
          | None => false
          end.
Proof.
  intros p'. subst p'. unfold checkHealth_continued.
  destruct (cards_all engine (batch rt t) []) as (nodes & Hcards & Hnodes).
  { unfold batch. apply Forall_fmap, Forall_forall. intros endpoint _.
    destruct (card_of_probe engine rt t endpoint) as (healthy & html & Hcard & _).
    cbn. eauto. }
  rewrite Hcards. cbn [app results set_results]. split.
  - rewrite <- (Forall2_length _ _ _ Hnodes). unfold batch. apply length_map.
  - intros i endpoint Hi.
    destruct (card_of_probe engine rt t endpoint) as (healthy & html & Hcard & Hrest).
    exists healthy, html. split; [| exact Hrest].
    assert (Hrecord : batch rt t !! i = Some (probe rt t endpoint)).
    { unfold batch. by rewrite list_lookup_fmap, Hi. }
    destruct (Forall2_lookup_l _ _ _ _ _ Hnodes Hrecord) as (node & -> & Hnode).
    congruence.
Qed.

(** *** Instances *)

Import Samples.

Lemma one_refresh_armed_witness :
  Reachable chromium (loaded DEFAULT_REFRESH_INTERVAL 0 0) /\
  exists t,
    timeouts (loaded DEFAULT_REFRESH_INTERVAL 0 0) = {[1%nat := t]} /\ t <= 300000.
Proof.
  assert (Hreach : Reachable chromium (loaded DEFAULT_REFRESH_INTERVAL 0 0))
    by apply reach_loaded.
  split; [exact Hreach |].
  destruct (one_refresh_armed chromium _ Hreach) as [_ (id & t & Hid & Ht & Hbefore)].
  injection Hid as <-. exists t. split; [exact Ht |]. by apply Hbefore.
Defined.


Lemma countdown_text_witness :
  let p := loaded DEFAULT_REFRESH_INTERVAL 0 0 in
  autoRefreshEnabled p = true /\ nextRefreshTime p = Some 300000 /\
  500 <= 300000 - 58400 /\
  next_refresh (updateNextRefreshDisplay 58400 p) = "(下次刷新: 4分2秒后)".
Proof.
  intros p.
  assert (Hon : autoRefreshEnabled p = true) by reflexivity.
  assert (Hnext : nextRefreshTime p = Some 300000) by reflexivity.
  assert (Hleft : 500 <= 300000 - 58400) by lia.
  split; [exact Hon |]. split; [exact Hnext |]. split; [exact Hleft |].
  destruct (proj1 (proj2 (countdown_text 58400 p) 300000 Hon Hnext) Hleft)
    as (minutes & seconds & Htext & _).
  reflexivity.
Defined.

Lemma restart_counts_whole_interval_witness :
  let p := checkHealth (initial DEFAULT_REFRESH_INTERVAL) in
  let far := set_refreshInterval (Finite 200000000000) p in
  autoRefreshEnabled p = true /\ refreshInterval p = Finite 5 /\ 0 < 5 /\
  0 <= 1000 /\ 1000 <= 1003 < 1000 + 500 /\
  next_refresh (startRefreshTimer 1000 1003 p) = "(下次刷新: 5分0秒后)" /\
  timeouts (startRefreshTimer 1000 1003 p) !! 1%nat = Some 301000 /\
  nextRefreshTime (startRefreshTimer 1000 1003 far) = None.
Proof.
  intros p far.
  assert (Hon : autoRefreshEnabled p = true) by reflexivity.
  assert (Hm : refreshInterval p = Finite 5) by reflexivity.
  assert (Hfar : refreshInterval far = Finite 200000000000) by reflexivity.
  assert (Hpos : 0 < 5) by reflexivity.
  assert (Hnow : 0 <= 1000) by discriminate.
  assert (Hclock : 1000 <= 1003 < 1000 + 500) by lia.
  split; [exact Hon |]. split; [exact Hm |]. split; [exact Hpos |].
  split; [exact Hnow |]. split; [exact Hclock |].
  destruct (restart_counts_whole_interval 1000 1003 5 p Hon Hm Hpos Hnow Hclock)
    as (_ & Hvalid & _ & Hfits & _).
  destruct (restart_counts_whole_interval 1000 1003 200000000000 far Hon Hfar
              eq_refl Hnow Hclock) as (_ & _ & Hinvalid & _).
  split; [exact (proj2 (Hvalid ltac:(discriminate))) |].
  split; [exact (Hfits eq_refl) | exact (proj1 (Hinvalid eq_refl))].
Defined.

Lemma change_of_interval_witness :
  let p := loaded DEFAULT_REFRESH_INTERVAL 0 0 in
  Reachable chromium p /\
  react chromium 7 7 (ChangeInterval (Some (-3))) p = Some p /\
  react chromium 7 7 (ChangeInterval None) p = Some p /\
  exists p',
    react chromium 7 7 (ChangeInterval (Some 200000000000)) p = Some p' /\
    refreshInterval p' = Finite 200000000000 /\
    nextRefreshTime p' = None.
Proof.
  intros p.
  assert (Hreach : Reachable chromium p) by apply reach_loaded.
  split; [exact Hreach |]. split; [| split].
  - exact (change_of_interval chromium 7 7 (Some (-3)) p Hreach).
  - exact (change_of_interval chromium 7 7 None p Hreach).
  - destruct (change_of_interval chromium 7 7 (Some 200000000000) p Hreach)
      as (p' & Hreact & Hinterval & _ & Harmed).
    destruct (Harmed eq_refl) as (_ & _ & _ & _ & Hinvalid).
    exists p'. split; [exact Hreact |]. split; [exact Hinterval |].
    apply Hinvalid; [discriminate | reflexivity].
Defined.

Lemma requests_sent_witness :
  let p := loaded DEFAULT_REFRESH_INTERVAL 0 0 in
  Reachable chromium p /\
  react chromium 9 9 Click p = Some (checkHealth p) /\
  requested (checkHealth p) = (requested p + 1)%nat.
Proof.
  intros p.
  assert (Hreach : Reachable chromium p) by apply reach_loaded.
  assert (Hreact : react chromium 9 9 Click p = Some (checkHealth p)) by reflexivity.
  split; [exact Hreach |]. split; [exact Hreact |].
  exact (proj1 (requests_sent chromium p 9 9 Click _ Hreach Hreact)).
Defined.

Lemma batch_rendered_witness :
  ENDPOINTS !! 1%nat = Some demo /\
  exists html,
    results (checkHealth_continued chromium (Ok (JArray (batch rt_unreachable 0)))
               (initial DEFAULT_REFRESH_INTERVAL)) !! 1%nat
      = Some (CardDiv "card unhealthy" html) /\
    has_lit "<p>错误: " html = true /\ has_lit "<pre>" html = false.
Proof.
  assert (Hdemo : ENDPOINTS !! 1%nat = Some demo) by reflexivity.
  split; [exact Hdemo |].
  destruct (proj2 (batch_rendered chromium rt_unreachable 0 (initial DEFAULT_REFRESH_INTERVAL))
              1%nat demo Hdemo) as (healthy & html & Hcard & Hhealthy & _ & Herror & Hpre).
  injection Hhealthy as <-. exists html. split; [exact Hcard |].
  split; [exact Herror | exact Hpre].
Defined.

End ScriptFacts.

(** ** Instances on the sample runtimes *)

Import Samples.

Lemma swapped_order : [1; 0]%nat ≡ₚ seq 0 (length ENDPOINTS).
Proof. exact (perm_swap 0%nat 1%nat []). Defined.

(** The batch fulfils in input order although endpoint 1 settles first. *)
Lemma batch_in_input_order_witness :
  [1; 0]%nat ≡ₚ seq 0 (length ENDPOINTS) /\
  Promise_all JUndefined (map (outcome 0) (map (checkHealth rt_up) ENDPOINTS)) [1; 0]%nat
    = Some (Ok (map (probe rt_up 0) ENDPOINTS)).
Proof.
  split; [exact swapped_order |].
  exact (proj1 (batch_in_input_order rt_up ENDPOINTS 0 [1; 0]%nat swapped_order)).
Defined.

(** A 503 answer whose body read throws: the fetch has succeeded with
    status 503, and the record has status 0 and an error. *)
Lemma status_503_body_cut_off :
  received rt_cut_off (url demo) 0 = Some cut_off /\
  status cut_off = 503 /\
  field "status" (probe rt_cut_off 0 demo) = Some (JNumber 0) /\
  field "error" (probe rt_cut_off 0 demo)
    = Some (JString "error reading a body from connection") /\
  ~ (field "status" (probe rt_cut_off 0 demo) = Some (JNumber 503) /\
     field "error" (probe rt_cut_off 0 demo) = None).
Proof.
  repeat split; try reflexivity. intros [Hstatus _]. vm_compute in Hstatus. discriminate.
Qed.

(** A 200 answer with a JSON body whose content type is written
    Application/JSON: the body is read as text, and the record's
    response is that text, not the parsed value. *)
Lemma capitals_read_as_text :
  received rt_capitals (url demo) 0 = Some capitals /\
  status capitals = 200 /\
  headers_get "content-type" (headers capitals) = Some "Application/JSON" /\
  yields (json capitals) = Ok (JArray [JNumber 1]) /\
  field "response" (probe rt_capitals 0 demo) = Some (JString "[1]") /\
  field "response" (probe rt_capitals 0 demo) <> Some (JArray [JNumber 1]).
Proof.
  repeat split; try reflexivity. intros Hresponse. vm_compute in Hresponse. discriminate.
Qed.

Lemma responded_record_witness :
  received rt_up (url demo) 0 = Some up /\
  headers_get "content-type" (headers up) = Some "application/json; charset=utf-8" /\
  field "healthy" (probe rt_up 0 demo) = Some (JBool true) /\
  field "status" (probe rt_up 0 demo) = Some (JNumber 200) /\
  field "response" (probe rt_up 0 demo) = Some (JObject [("status", JString "ok")]) /\
  field "error" (probe rt_up 0 demo) = None.
Proof.
  split; [reflexivity |]. split; [reflexivity |].
  apply (proj1 (responded_record rt_up) demo 0 up "application/json; charset=utf-8");
    reflexivity.
Defined.

Lemma timed_out_record_witness :
  exceeds rt_slow (url demo) 0 TIMEOUT_MS /\
  field "status" (probe rt_slow 0 demo) = Some (JNumber 0) /\
  field "error" (probe rt_slow 0 demo) = Some (JString "The signal has been aborted").
Proof.
  assert (Hslow : exceeds rt_slow (url demo) 0 TIMEOUT_MS) by reflexivity.
  split; [exact Hslow |].
  destruct (timed_out_record rt_slow demo 0 Hslow) as (_ & _ & _ & Hst & _ & Herr & _).
  split; [exact Hst | exact Herr].
Defined.

(** A 200 answer that declares JSON and does not parse: the probe has
    received a response, and the record has status 0. *)
Lemma status_0_with_response :
  received rt_garbled (url demo) 0 = Some garbled /\
  field "status" (probe rt_garbled 0 demo) = Some (JNumber 0) /\
  ~ (field "status" (probe rt_garbled 0 demo) = Some (JNumber 0) ->
     received rt_garbled (url demo) 0 = None).
Proof.
  repeat split; try reflexivity. intros Hclaim.
  specialize (Hclaim eq_refl). vm_compute in Hclaim. discriminate.
Qed.

Lemma body_failure_record_witness :
  received rt_garbled (url demo) 0 = Some garbled /\
  yields (body_read garbled) = Throw (mkError "Unexpected end of JSON input") /\
  field "status" (probe rt_garbled 0 demo) = Some (JNumber 0) /\
  field "error" (probe rt_garbled 0 demo) = Some (JString "Unexpected end of JSON input").
Proof.
  assert (Hr : received rt_garbled (url demo) 0 = Some garbled) by reflexivity.
  assert (Hy : yields (body_read garbled) = Throw (mkError "Unexpected end of JSON input"))
    by reflexivity.
  split; [exact Hr |]. split; [exact Hy |].
  destruct (proj1 (body_failure_record rt_garbled demo 0) garbled _ Hr Hy)
    as (_ & Hst & _ & Herr & _).
  split; [exact Hst | exact Herr].
Defined.

(** The background check started at time 0 settles, endpoint 1 first. *)
Lemma cache_written_by_batches_only_witness :
  let s := startup rt_up 0 1 in
  let s' := mkServer (batch rt_up 0) (Some 1%nat) [] in
  Reachable rt_up s /\
  step rt_up s (Settles 0 [1; 0]%nat) = Some (s', None) /\
  (lastCheckResults s' = lastCheckResults s \/
   exists j order since,
     Settles 0 [1; 0]%nat = Settles j order /\
     lastCheckResults s' = batch rt_up since /\
     length (lastCheckResults s') = length ENDPOINTS /\
     ((exists req, suspended s !! j = Some (OfRequest req since (handle_check rt_up)) /\
                   pathname req = "/check") \/
      suspended s !! j = Some (OfTimer since (backgroundHealthCheck rt_up)))).
Proof.
  intros s s'.
  assert (Hreach : Reachable rt_up s) by apply reach_startup.
  assert (Hstep : step rt_up s (Settles 0 [1; 0]%nat) = Some (s', None)) by reflexivity.
  split; [exact Hreach |]. split; [exact Hstep |].
  exact (proj1 (cache_written_by_batches_only rt_up s _ s' None Hreach Hstep)).
Defined.

Lemma last_check_serves_cache_witness :
  let s := startup rt_up 0 1 in
  let s' := mkServer (batch rt_up 0) (Some 1%nat) [] in
  let req := mkRequest "GET" "/last-check" in
  Reachable rt_up s /\
  step rt_up s (Settles 0 [1; 0]%nat) = Some (s', None) /\
  step rt_up s' (Arrives req 9)
    = Some (s', Some (Replies req (Ok (mkHttpResponse 200
                (cors_headers ++ [("Content-Type", "application/json")])
                (Stringify (JArray (map (probe rt_up 0) ENDPOINTS))))))).
Proof.
  intros s s' req.
  assert (Hreach : Reachable rt_up s) by apply reach_startup.
  assert (Hstep : step rt_up s (Settles 0 [1; 0]%nat) = Some (s', None)) by reflexivity.
  split; [exact Hreach |]. split; [exact Hstep |].
  apply (proj1 (proj2 (proj2 (last_check_serves_cache rt_up))) s 0%nat [1; 0]%nat s' None 0 9 Hreach Hstep).
  right. eexists. reflexivity.
Defined.


Lemma check_by_any_method_witness :
  let req := mkRequest "POST" "/check" in
  "POST" <> "OPTIONS" /\
  handler rt_up req = handler rt_up (mkRequest "GET" "/check") /\
  step rt_up initial (Arrives req 0)
    = Some (mkServer [] None [OfRequest req 0 (handle_check rt_up)], None).
Proof.
  intros req.
  assert (Hm : "POST" <> "OPTIONS") by discriminate.
  split; [exact Hm |].
  destruct (check_by_any_method rt_up "POST" initial 0 Hm) as (Hsame & Hparks & _).
  split; [exact Hsame | exact Hparks].
Defined.

(** *** Instances of the further properties *)

Lemma fetchWithTimeout_bounded_witness :
  outcome 0 (fetchWithTimeout rt_up (url demo) TIMEOUT_MS) = Ok up /\
  (exists d,
     net rt_up (url demo) 0 = Responds d up /\ d < 5000 /\
     settled_at 0 (fetchWithTimeout rt_up (url demo) TIMEOUT_MS) = 0 + d) /\
  - 2 ^ 31 <= -5 < 0 /\
  timer_delay (-5) = 0.
Proof.
  assert (Hok : outcome 0 (fetchWithTimeout rt_up (url demo) TIMEOUT_MS) = Ok up)
    by reflexivity.
  assert (Hnegative : - 2 ^ 31 <= -5 < 0) by (split; [discriminate | reflexivity]).
  split; [exact Hok |].
  split; [exact (proj1 (proj2 (fetchWithTimeout_bounded rt_up (url demo) TIMEOUT_MS 0)) up Hok) |].
  split; [exact Hnegative |].
  exact (proj2 (proj2 (proj2 (proj2 (proj2
           (fetchWithTimeout_bounded rt_up (url demo) (-5) 0))))) Hnegative).
Defined.

Lemma record_names_its_endpoint_witness :
  ENDPOINTS !! 1%nat = Some demo /\
  exists record,
    batch rt_slow 0 !! 1%nat = Some record /\
    field "name" record = Some (JString "Demo API").
Proof.
  assert (Hdemo : ENDPOINTS !! 1%nat = Some demo) by reflexivity.
  split; [exact Hdemo |].
  exact (proj2 (record_names_its_endpoint rt_slow 0) 1%nat demo Hdemo).
Defined.

Lemma latency_is_fetch_time_witness :
  net rt_up (url demo) 0 = Responds 120 up /\ 120 < TIMEOUT_MS /\
  field "latency" (probe rt_up 0 demo) = Some (JString "120ms") /\
  field "timestamp" (probe rt_up 0 demo) = Some (JString "T+123").
Proof.
  assert (Hnet : net rt_up (url demo) 0 = Responds 120 up) by reflexivity.
  assert (Hd : 120 < TIMEOUT_MS) by reflexivity.
  split; [exact Hnet |]. split; [exact Hd |].
  exact (latency_is_fetch_time rt_up demo 0 120 up _ Hnet Hd eq_refl).
Defined.

Lemma text_unless_json_witness :
  received rt_down (url demo) 0 = Some down /\
  field "response" (probe rt_down 0 demo) = Some (JString "Service Unavailable") /\
  field "error" (probe rt_down 0 demo) = None.
Proof.
  assert (Hr : received rt_down (url demo) 0 = Some down) by reflexivity.
  split; [exact Hr |].
  apply (text_unless_json rt_down demo 0 down "Service Unavailable" Hr); [| reflexivity].
  right. exists "text/plain". split; reflexivity.
Defined.

Lemma match_check_index_spec_witness :
  match_check_index "/check/007" = Some "007" /\
  match_check_index "/check/+7" = None.
Proof.
  split.
  - apply (proj2 (match_check_index_spec "/check/007" "007")).
    split; [reflexivity |]. split; [discriminate |].
    repeat constructor.
  - destruct (match_check_index "/check/+7") as [w |] eqn:Hmatch; [| reflexivity].
    apply (proj1 (match_check_index_spec "/check/+7" w)) in Hmatch
      as (Hpath & _ & Hdigits).
    vm_compute in Hpath. injection Hpath as <-. apply Forall_inv in Hdigits.
    by repeat (apply elem_of_cons in Hdigits as [Hdigits | Hdigits]; [discriminate |]);
      apply elem_of_nil in Hdigits.
Defined.

Lemma decimal_index_round_trip_witness :
  0 <= 41 <= 2 ^ 53 /\
  parseInt "41" = Finite 41 /\
  parseInt "9007199254740993" = Finite 9007199254740992.
Proof.
  assert (Hsafe : 0 <= 41 <= 2 ^ 53) by (split; discriminate).
  split; [exact Hsafe |].
  split; [exact (proj1 (proj2 (proj2 (decimal_index_round_trip 41))) Hsafe) |].
  exact (proj2 (proj2 (proj2 (decimal_index_round_trip 41)))).
Defined.

Lemma every_answer_well_formed_witness :
  let req := mkRequest "GET" "/nowhere" in
  Reachable rt_up (startup rt_up 0 1) /\
  step rt_up (startup rt_up 0 1) (Arrives req 3)
    = Some (startup rt_up 0 1, Some (Replies req (Ok not_found))) /\
  well_formed_answer (Ok not_found).
Proof.
  intros req.
  assert (Hreach : Reachable rt_up (startup rt_up 0 1)) by apply reach_startup.
  assert (Hstep : step rt_up (startup rt_up 0 1) (Arrives req 3)
                  = Some (startup rt_up 0 1, Some (Replies req (Ok not_found))))
    by reflexivity.
  split; [exact Hreach |]. split; [exact Hstep |].
  exact (every_answer_well_formed rt_up _ _ _ req _ Hreach Hstep).
Defined.

Lemma static_routes_witness :
  let req := mkRequest "DELETE" "/check/1/" in
  "DELETE" <> "OPTIONS" /\
  step rt_up initial (Arrives req 0) = Some (initial, Some (Replies req (Ok not_found))).
Proof.
  intros req.
  assert (Hm : "DELETE" <> "OPTIONS") by discriminate.
  split; [exact Hm |].
  apply (proj2 (static_routes rt_up "DELETE" "/check/1/" initial 0 Hm)); try discriminate.
  intros w Hw Heq. vm_compute in Heq. injection Heq as <-.
  vm_compute in Hw. discriminate Hw.
Defined.

Lemma cache_is_one_batch_witness :
  Reachable rt_up (startup rt_up 0 1) /\
  (lastCheckResults (startup rt_up 0 1) = [] \/
   exists t, lastCheckResults (startup rt_up 0 1) = batch rt_up t).
Proof.
  assert (Hreach : Reachable rt_up (startup rt_up 0 1)) by apply reach_startup.
  split; [exact Hreach |]. exact (proj1 (cache_is_one_batch rt_up _ Hreach)).
Defined.

Lemma background_check_keeps_running_witness :
  Reachable rt_up (startup rt_up 0 1) /\
  is_Some (healthCheckInterval (startup rt_up 0 1)).
Proof.
  assert (Hreach : Reachable rt_up (startup rt_up 0 1)) by apply reach_startup.
  split; [exact Hreach |]. exact (proj1 (background_check_keeps_running rt_up _ Hreach)).
Defined.

Lemma parked_programs_settle_witness :
  let s := startup rt_up 0 1 in
  Reachable rt_up s /\
  suspended s !! 0%nat = Some (OfTimer 0 (backgroundHealthCheck rt_up)) /\
  exists s' out,
    step rt_up s (Settles 0 [1; 0]%nat) = Some (s', out) /\
    suspended s' = delete 0%nat (suspended s) /\ out = None.
Proof.
  intros s.
  assert (Hreach : Reachable rt_up s) by apply reach_startup.
  assert (Hparked : suspended s !! 0%nat = Some (OfTimer 0 (backgroundHealthCheck rt_up)))
    by reflexivity.
  split; [exact Hreach |]. split; [exact Hparked |].
  exact (parked_programs_settle rt_up s 0%nat _ [1; 0]%nat Hreach Hparked swapped_order).
Defined.

Lemma last_settlement_wins_witness :
  "GET" <> "OPTIONS" /\
  turns rt_up initial
    [ Arrives (mkRequest "GET" "/check") 10; Arrives (mkRequest "GET" "/check") 20;
      Settles 1 [0; 1]%nat; Settles 0 [1; 0]%nat ]
    = Some (mkServer (batch rt_up 10) None []).
Proof.
  assert (Hm : "GET" <> "OPTIONS") by discriminate.
  split; [exact Hm |].
  exact (proj1 (last_settlement_wins rt_up initial "GET" "GET" 10 20 [1; 0]%nat [0; 1]%nat
                  Hm Hm swapped_order (reflexivity _))).
Defined.

Lemma batch_waits_for_all_witness :
  (length [1%nat] < length ENDPOINTS)%nat /\
  Promise_all JUndefined (map (outcome 0) (map (checkHealth rt_up) ENDPOINTS)) [1%nat] = None.
Proof.
  assert (Hlt : (length [1%nat] < length ENDPOINTS)%nat) by (cbn; lia).
  split; [exact Hlt |]. exact (batch_waits_for_all rt_up ENDPOINTS 0 [1%nat] Hlt).
Defined.

